(** * The Redis/Postgres ingestion pipeline (redis-postgres-pipeline)

    A shallow embedding of [src/redis_utils.py], [src/postgres_utils.py]
    and [src/pipeline.py].  The two external stores are modelled as explicit
    state; every method of the Python classes becomes a function in a state
    monad over that state.  Polars, the third library the pipeline calls, is
    taken as given. *)

From stdpp Require Import gmap strings list fin_maps pretty.
From Stdlib Require Import ZArith Lia.

(** ** A state monad with the notation of the code's sequencing *)

Definition state (S A : Type) : Type := S → A * S.

Global Instance state_ret {S} : MRet (state S) := λ A a s, (a, s).
Global Instance state_bind {S} : MBind (state S) :=
  λ A B f m s, let '(a, s') := m s in f a s'.

Definition gets {S A} (f : S → A) : state S A := λ s, (f s, s).
Definition modify {S} (f : S → S) : state S unit := λ s, (tt, f s).

(** A Python call either returns or raises. *)
Inductive result (A : Type) : Type :=
  | Ok (a : A)
  | Raise (e : string).
Arguments Ok {A} a.
Arguments Raise {A} e.

(** [json.dumps] / [json.loads] on the values of type [A].  The codec is an
    interface: the pipeline only relies on it through these two calls.
    [loads] answers [None] where Python raises [JSONDecodeError]. *)
Class Json (A : Type) := { dumps : A → string; loads : string → option A }.

(** ** The Redis server

    Keys of the three Redis types the program uses live in separate maps (the
    program never uses one key at two types).  Only hash keys ever receive an
    EXPIRE, so the deadline is stored with the hash.  Integer counters are
    unbounded: the model agrees with the server as long as counters and
    amounts stay within the server's signed 64 bits (beyond them INCRBY and
    DECRBY are refused).  Commands always answer, with one exception: a
    PUBLISH may be refused (see [RedisPubSub.publish]).  [clock] is the time
    in seconds, shared by server and client. *)
Module Redis.

Record hkey := HKey { fields : gmap string string; deadline : option Z }.

Record t := Server {
  clock : Z;
  lists : gmap string (list string);   (* head of the list first *)
  ints : gmap string Z;
  hashes : gmap string hkey;
  channel_log : list (string * string) (* PUBLISH history, newest first *)
}.

Definition empty : t := Server 0 ∅ ∅ ∅ [].

Definition set_clock (c : Z) (s : t) : t :=
  Server c (lists s) (ints s) (hashes s) (channel_log s).
Definition set_lists (l : gmap string (list string)) (s : t) : t :=
  Server (clock s) l (ints s) (hashes s) (channel_log s).
Definition set_ints (i : gmap string Z) (s : t) : t :=
  Server (clock s) (lists s) i (hashes s) (channel_log s).
Definition set_hashes (h : gmap string hkey) (s : t) : t :=
  Server (clock s) (lists s) (ints s) h (channel_log s).
Definition set_channel_log (l : list (string * string)) (s : t) : t :=
  Server (clock s) (lists s) (ints s) (hashes s) l.

(** Time passing between two commands. *)
Definition tick (dt : Z) (s : t) : t := set_clock (clock s + Z.max 0 dt) s.

(** *** Lists *)

Definition lrange (key : string) (s : t) : list string :=
  default [] (lists s !! key).

(** LPUSH key v1 ... vn pushes the values one after the other at the head. *)
Definition lpush (key : string) (values : list string) : state t Z := λ s,
  let l := rev values ++ lrange key s in
  (Z.of_nat (length l), set_lists (<[key := l]> (lists s)) s).

(** BRPOP key timeout, for the positive timeouts the program uses ([pop]'s
    default of 5 and the 1 of [process_batch]): it takes the tail element;
    on an empty list it waits for the whole timeout and answers nothing.
    The model agrees with the server for a positive timeout only: at 0 the
    server waits for ever on an empty list, and it refuses a negative
    timeout. *)
Definition brpop (key : string) (timeout : Z) : state t (option (string * string)) := λ s,
  match last (lrange key s) with
  | Some v => (Some (key, v), set_lists (<[key := removelast (lrange key s)]> (lists s)) s)
  | None => (None, tick timeout s)
  end.

Definition llen (key : string) : state t Z :=
  gets (λ s, Z.of_nat (length (lrange key s))).

(** *** Integer strings *)

Definition get (key : string) : state t (option Z) :=
  gets (λ s, ints s !! key).

Definition incrby (key : string) (amount : Z) : state t Z := λ s,
  let v := (default 0 (ints s !! key) + amount)%Z in
  (v, set_ints (<[key := v]> (ints s)) s).

Definition decrby (key : string) (amount : Z) : state t Z :=
  incrby key (- amount).
Definition incr (key : string) : state t Z := incrby key 1.
Definition decr (key : string) : state t Z := decrby key 1.

(** *** Hashes with a time to live *)

(** The hash stored at [key], if it exists: an expired hash and a hash
    without fields do not exist. *)
Definition hfind (key : string) (s : t) : option hkey :=
  match hashes s !! key with
  | Some h =>
      if bool_decide (fields h = ∅) then None
      else match deadline h with
           | Some d => if bool_decide (d ≤ clock s)%Z then None else Some h
           | None => Some h
           end
  | None => None
  end.

Definition hgetall (key : string) (s : t) : gmap string string :=
  from_option fields ∅ (hfind key s).

Definition httl (key : string) (s : t) : option Z :=
  hfind key s ≫= deadline.

Definition hsetnx (key field value : string) : state t Z := λ s,
  match hgetall key s !! field with
  | Some _ => (0%Z, s)
  | None =>
      (1%Z, set_hashes (<[key := HKey (<[field := value]> (hgetall key s)) (httl key s)]> (hashes s)) s)
  end.

Definition hset (key field value : string) : state t Z := λ s,
  (if bool_decide (is_Some (hgetall key s !! field)) then 0%Z else 1%Z,
   set_hashes (<[key := HKey (<[field := value]> (hgetall key s)) (httl key s)]> (hashes s)) s).

Definition hget (key field : string) : state t (option string) :=
  gets (λ s, hgetall key s !! field).

Definition hexists (key field : string) : state t bool :=
  gets (λ s, bool_decide (is_Some (hgetall key s !! field))).

Definition hlen (key : string) : state t Z :=
  gets (λ s, Z.of_nat (size (hgetall key s))).

(** HSET key f1 v1 ... fn vn (the [mapping=] form): the given fields replace
    or extend the hash; the answer is the number of fields added.  The
    client refuses an empty mapping; the program never sends one. *)
Definition hset_mapping (key : string) (mapping : gmap string string) : state t Z := λ s,
  (Z.of_nat (size (mapping ∖ hgetall key s)),
   set_hashes (<[key := HKey (mapping ∪ hgetall key s) (httl key s)]> (hashes s)) s).

(** HDEL key field: a hash left without fields no longer exists. *)
Definition hdel (key field : string) : state t Z := λ s,
  match hgetall key s !! field with
  | Some _ =>
      (1%Z, set_hashes (<[key := HKey (base.delete field (hgetall key s)) (httl key s)]>
                          (hashes s)) s)
  | None => (0%Z, s)
  end.

(** EXPIRE answers 0 and does nothing when the key does not exist. *)
Definition expire (key : string) (seconds : Z) : state t Z := λ s,
  match hfind key s with
  | Some h => (1%Z, set_hashes (<[key := HKey (fields h) (Some (clock s + seconds)%Z)]> (hashes s)) s)
  | None => (0%Z, s)
  end.

(** *** Keys and channels *)

Definition delete (keys : list string) : state t unit :=
  modify (λ s,
    Server (clock s)
           (foldr base.delete (lists s) keys)
           (foldr base.delete (ints s) keys)
           (foldr base.delete (hashes s) keys)
           (channel_log s)).

Definition publish (channel message : string) : state t unit :=
  modify (λ s, set_channel_log ((channel, message) :: channel_log s) s).

(** [int(time.time())] *)
Definition time : state t Z := gets clock.

(** A pipeline (MULTI/EXEC): the queued commands run one after the other
    with nothing in between, and [execute] returns their answers. *)
Fixpoint pipeline_execute (commands : list (state t Z)) : state t (list Z) :=
  match commands with
  | [] => mret []
  | c :: cs => r ← c; rs ← pipeline_execute cs; mret (r :: rs)
  end.

End Redis.

(** ** [redis_utils.py] *)

Module RedisQueue.
Record t := Make { queue_name : string; counter_key : string }.

Definition init (queue_name : string) : t :=
  Make queue_name (queue_name +:+ ":counter").

Section methods.
Context {Job : Type} `{!Json Job}.

Definition push (self : t) (job_data : Job) : state Redis.t unit :=
  _ ← Redis.lpush (queue_name self) [dumps job_data];
  _ ← Redis.incr (counter_key self);
  mret tt.

Definition push_batch (self : t) (jobs : list Job) : state Redis.t unit :=
  match jobs with
  | [] => mret tt
  | _ =>
      let serialized := dumps <$> jobs in
      _ ← Redis.lpush (queue_name self) serialized;
      _ ← Redis.incrby (counter_key self) (Z.of_nat (length jobs));
      mret tt
  end.

Definition pop (self : t) (timeout : Z) : state Redis.t (result (option Job)) :=
  result ← Redis.brpop (queue_name self) timeout;
  match result with
  | Some (_, job_data) =>
      _ ← Redis.decr (counter_key self);
      mret (match loads job_data with
            | Some job => Ok (Some job)
            | None => Raise "JSONDecodeError"
            end)
  | None => mret (Ok None)
  end.
End methods.

Definition size (self : t) : state Redis.t Z := Redis.llen (queue_name self).

Definition counter (self : t) : state Redis.t Z :=
  value ← Redis.get (counter_key self);
  mret (match value with Some v => v | None => 0%Z end).

Definition clear (self : t) : state Redis.t unit :=
  Redis.delete [queue_name self; counter_key self].
End RedisQueue.

(** Python's [sum] on a list of integers. *)
Definition sum (l : list Z) : Z := foldr Z.add 0%Z l.

Module RedisDeduplicator.
Record t := Make { window_name : string; ttl_seconds : Z }.

Definition is_duplicate (self : t) (record_id : string) : state Redis.t bool :=
  Redis.hexists (window_name self) record_id.

Definition mark_seen (self : t) (record_id : string) : state Redis.t bool :=
  timestamp ← Redis.time;
  is_new ← Redis.hsetnx (window_name self) record_id (pretty timestamp);
  n ← Redis.hlen (window_name self);
  _ ← (if bool_decide (n = 1%Z)
       then Redis.expire (window_name self) (ttl_seconds self)
       else mret 0%Z);
  mret (negb (bool_decide (is_new = 0%Z))).

Definition mark_batch (self : t) (record_ids : list string) : state Redis.t Z :=
  match record_ids with
  | [] => mret 0%Z
  | _ =>
      timestamp ← Redis.time;
      results ← Redis.pipeline_execute
        (((λ record_id, Redis.hsetnx (window_name self) record_id (pretty timestamp))
            <$> record_ids)
         ++ [Redis.expire (window_name self) (ttl_seconds self)]);
      mret (sum (removelast results))
  end.

Definition count_seen (self : t) : state Redis.t Z :=
  Redis.hlen (window_name self).

Definition clear (self : t) : state Redis.t unit :=
  Redis.delete [window_name self].
End RedisDeduplicator.

Module RedisBackpressure.
Record t := Make { namespace : string }.

Definition init : t := Make "backpressure".

Definition key (self : t) (queue_name : string) : string :=
  namespace self +:+ ":" +:+ queue_name.

Definition increment (self : t) (queue_name : string) (amount : Z) : state Redis.t Z :=
  Redis.incrby (key self queue_name) amount.

Definition decrement (self : t) (queue_name : string) (amount : Z) : state Redis.t Z :=
  Redis.decrby (key self queue_name) amount.

Definition get_depth (self : t) (queue_name : string) : state Redis.t Z :=
  value ← Redis.get (key self queue_name);
  mret (match value with Some v => v | None => 0%Z end).

Definition should_throttle (self : t) (queue_name : string) (max_depth : Z)
  : state Redis.t bool :=
  depth ← get_depth self queue_name;
  mret (bool_decide (max_depth ≤ depth)%Z).

Definition reset (self : t) (queue_name : string) : state Redis.t unit :=
  Redis.delete [key self queue_name].
End RedisBackpressure.

Module RedisCache.
Record t := Make { cache_name : string }.

(** [value.decode('utf-8') if value else None]: an empty value counts as
    absent. *)
Definition get (self : t) (key : string) : state Redis.t (option string) :=
  value ← Redis.hget (cache_name self) key;
  mret (match value with
        | Some v => if bool_decide (v = EmptyString) then None else Some v
        | None => None
        end).

Definition get_json {J} `{!Json J} (self : t) (key : string)
  : state Redis.t (result (option J)) :=
  value ← get self key;
  mret (match value with
        | Some v => match loads v with
                    | Some j => Ok (Some j)
                    | None => Raise "JSONDecodeError"
                    end
        | None => Ok None
        end).

Definition set (self : t) (key value : string) (ttl_seconds : option Z)
  : state Redis.t unit :=
  _ ← Redis.hset (cache_name self) key value;
  match ttl_seconds with
  | Some ttl => if bool_decide (ttl = 0%Z) then mret tt
                else _ ← Redis.expire (cache_name self) ttl; mret tt
  | None => mret tt
  end.

Definition set_json {J} `{!Json J} (self : t) (key : string) (value : J)
    (ttl_seconds : option Z) : state Redis.t unit :=
  set self key (dumps value) ttl_seconds.

Definition set_batch (self : t) (mapping : gmap string string) (ttl_seconds : option Z)
  : state Redis.t unit :=
  if bool_decide (mapping = ∅) then mret tt
  else
    _ ← Redis.pipeline_execute
          (Redis.hset_mapping (cache_name self) mapping
           :: match ttl_seconds with
              | Some ttl => if bool_decide (ttl = 0%Z) then []
                            else [Redis.expire (cache_name self) ttl]
              | None => []
              end);
    mret tt.

Definition get_all (self : t) : state Redis.t (gmap string string) :=
  gets (Redis.hgetall (cache_name self)).

Definition delete (self : t) (key : string) : state Redis.t unit :=
  _ ← Redis.hdel (cache_name self) key; mret tt.

Definition exists_ (self : t) (key : string) : state Redis.t bool :=
  Redis.hexists (cache_name self) key.

Definition clear (self : t) : state Redis.t unit :=
  Redis.delete [cache_name self].

Definition size (self : t) : state Redis.t Z := Redis.hlen (cache_name self).
End RedisCache.

Module RedisPubSub.
(** [publish].  The pipeline's control flow depends on a PUBLISH that
    raises ([process_batch] runs it inside the [try] of the bulk insert,
    [promote_to_production] after the commit), so the call is told whether
    the command goes through ([delivered]); a PUBLISH that does not raises
    and leaves the server as it is. *)
Definition publish {Msg} `{!Json Msg} (delivered : bool) (channel : string)
    (message : Msg) : state Redis.t (result unit) :=
  if delivered then
    _ ← Redis.publish channel (dumps message);
    mret (Ok tt)
  else mret (Raise "ConnectionError").
End RedisPubSub.

(** ** Values the pipeline carries

    Python floats and decoded JSON documents are opaque: the pipeline parses
    them, tests their truth value and passes them on. *)
Class PyValues := {
  json : Type;
  json_codec :: Json json;
  json_truthy : json → bool;
  float : Type;
  float_of_string : string → option float;  (* [float(s)]; [None] is ValueError *)
  float_truthy : float → bool;
  isoformat : Z → string                    (* [datetime.now().isoformat()] *)
}.

Section records.
Context `{PyValues}.

(** An order dictionary, as [data_generator.py] builds it. *)
Record Order := {
  order_id : string;
  customer_id : string;
  product_id : string;
  quantity : Z;
  unit_price : float;
  currency : string;
  zip_code : string;
  order_timestamp : string;
  raw_data : json
}.

(** A row of the staging table. *)
Record EnrichedRow := {
  e_order_id : string;
  e_customer_id : string;
  e_product_id : string;
  e_quantity : Z;
  e_unit_price : float;
  e_currency : string;
  e_zip_code : string;
  e_order_timestamp : string;
  e_raw_data : string
}.

(** A message on the [pipeline:events] channel. *)
Record Event := { event : string; count : Z; timestamp : string }.
End records.

(** ** Polars frames

    [pl.DataFrame(rows)] is library code.  [process_batch] builds a frame
    from the popped orders and reads it back with [iter_rows(named=True)],
    and builds a second frame from the enriched rows, which [bulk_insert]
    writes out.  The constructor can raise (an integer beyond 64 bits,
    columns of mixed types), and the rows read back are the frame's, not the
    dictionaries put in (a nested [raw_data] comes back with the union of the
    keys of the batch).  Both frames are taken as they come: [Raise] when
    the constructor raises, the rows of the frame otherwise.  All that is
    relied upon is that a frame has one row per dictionary. *)
Class Polars `{PyValues} := {
  orders_frame : list Order → result (list Order);
  enriched_frame : list EnrichedRow → result (list EnrichedRow);
  orders_frame_rows orders_batch df :
    orders_frame orders_batch = Ok df → length df = length orders_batch;
  enriched_frame_rows enriched_rows df :
    enriched_frame enriched_rows = Ok df → length df = length enriched_rows
}.

(** [config.py] *)
Record PipelineConfig := {
  worker_count : Z;
  batch_size : Z;
  dedup_window_seconds : Z;
  max_queue_depth : Z
}.

Definition default_config : PipelineConfig :=
  {| worker_count := 4; batch_size := 5000;
     dedup_window_seconds := 3600; max_queue_depth := 100000 |}.

(** ** [postgres_utils.py]

    The database holds the staging table, the production table and the
    materialized views (of which only the number of refreshes is kept).  A
    connection runs with [autocommit=False]: statements act on a working copy
    that replaces the committed database at [commit] and is dropped at
    [close]. *)
Module Postgres.
Section db.
Context `{PyValues}.

Record db := Db {
  orders_staging : list EnrichedRow;
  orders : list EnrichedRow;
  refreshes : nat
}.

Record connection := Conn { committed : db; working : db }.

(** What the server does during one call of the pipeline: whether the
    connection is accepted and whether each statement succeeds. *)
Record behaviour := {
  connect_ok : bool;
  copy_ok : bool;
  promote_ok : bool;
  refresh_ok : bool
}.

Definition healthy : behaviour :=
  {| connect_ok := true; copy_ok := true; promote_ok := true; refresh_ok := true |}.

Definition connect (env : behaviour) (d : db) : result connection :=
  if connect_ok env then Ok (Conn d d) else Raise "OperationalError".

Definition commit (c : connection) : connection :=
  Conn (working c) (working c).

Definition close (c : connection) : db := committed c.

(** [StagingTable.bulk_insert]: COPY the frame into the staging table,
    commit, return [len(df)]. *)
Definition bulk_insert (env : behaviour) (df : list EnrichedRow) (c : connection)
  : result Z * connection :=
  if copy_ok env then
    let w := working c in
    (Ok (Z.of_nat (length df)),
     commit (Conn (committed c) (Db (orders_staging w ++ df) (orders w) (refreshes w))))
  else (Raise "copy failed", c).

Definition count (c : connection) : Z :=
  Z.of_nat (length (orders_staging (working c))).

(** Modelled from the spec: the stored procedure
    [promote_staging_to_production()] is SQL that is not part of the
    sources.  Per the spec it is one atomic server-side operation that
    moves the validated staging rows into the durable table, clears
    exactly those rows from staging and reports the moved count.  Which
    rows count as validated is left open ([validated]). *)
Definition promote_staging_to_production (validated : EnrichedRow → bool) (d : db)
  : option Z * db :=
  let moved := filter (λ r, validated r = true) (orders_staging d) in
  let kept := filter (λ r, ¬ validated r = true) (orders_staging d) in
  (Some (Z.of_nat (length moved)), Db kept (orders d ++ moved) (refreshes d)).

(** [StagingTable.promote_to_production]: [fetchone] runs the procedure
    without committing; [result['inserted_count'] if result else 0]. *)
Definition promote_to_production (validated : EnrichedRow → bool)
    (env : behaviour) (c : connection) : result Z * connection :=
  if promote_ok env then
    let '(row, w) := promote_staging_to_production validated (working c) in
    (Ok (match row with Some inserted_count => inserted_count | None => 0%Z end),
     Conn (committed c) w)
  else (Raise "promote failed", c).

(** [MaterializedViewManager.refresh_all]: [execute] commits. *)
Definition refresh_all (env : behaviour) (c : connection) : result unit * connection :=
  if refresh_ok env then
    let w := working c in
    (Ok tt, commit (Conn (committed c) (Db (orders_staging w) (orders w) (S (refreshes w)))))
  else (Raise "refresh failed", c).
End db.
End Postgres.

(** ** [pipeline.py] *)
Module Pipeline.
Section orchestrator.
Context `{PyValues} `{!Json Order} `{!Json Event} `{!Polars}.
(** The module-level [pipeline_config]. *)
Context (pipeline_config : PipelineConfig).
(** The validation rule of the stored procedure (see [Postgres]). *)
Context (validated : EnrichedRow → bool).

(** Both stores. *)
Record World := { redis : Redis.t; postgres : Postgres.db }.

(** What the outside does during one call: how the database behaves, and
    whether Redis takes the PUBLISH at the end. *)
Record environment := { database : Postgres.behaviour; publish_ok : bool }.

Definition on_redis {A} (m : state Redis.t A) : state World A := λ w,
  let '(a, r) := m (redis w) in (a, {| redis := r; postgres := postgres w |}).

Record PipelineOrchestrator := {
  ingestion_queue : RedisQueue.t;
  processing_queue : RedisQueue.t;
  deduplicator : RedisDeduplicator.t;
  lookup_cache : RedisCache.t;
  backpressure : RedisBackpressure.t
}.

Definition init : PipelineOrchestrator :=
  {| ingestion_queue := RedisQueue.init "orders:ingestion";
     processing_queue := RedisQueue.init "orders:processing";
     deduplicator :=
       RedisDeduplicator.Make "orders:dedup" (dedup_window_seconds pipeline_config);
     lookup_cache := RedisCache.Make "lookups";
     backpressure := RedisBackpressure.init |}.

(** *** [ingest_orders] *)

Record IngestStats := { total : Z; new : Z; duplicates : Z; queued : Z }.

(** The [for order in orders] loop: the statistics and [new_orders] are
    threaded through. *)
Fixpoint ingest_loop (self : PipelineOrchestrator) (orders : list Order)
    (stats : IngestStats) (new_orders : list Order)
  : state Redis.t (IngestStats * list Order) :=
  match orders with
  | [] => mret (stats, new_orders)
  | order :: rest =>
      is_new ← RedisDeduplicator.mark_seen (deduplicator self) (order_id order);
      if is_new : bool then
        ingest_loop self rest
          {| total := total stats; new := new stats + 1;
             duplicates := duplicates stats; queued := queued stats |}
          (new_orders ++ [order])
      else
        ingest_loop self rest
          {| total := total stats; new := new stats;
             duplicates := duplicates stats + 1; queued := queued stats |}
          new_orders
  end.

Definition ingest_orders (self : PipelineOrchestrator) (orders : list Order)
  : state Redis.t IngestStats :=
  let stats := {| total := Z.of_nat (length orders); new := 0;
                  duplicates := 0; queued := 0 |} in
  throttle ← RedisBackpressure.should_throttle (backpressure self) "ingestion"
               (max_queue_depth pipeline_config);
  if throttle : bool then mret stats
  else
    '(stats, new_orders) ← ingest_loop self orders stats [];
    match new_orders with
    | [] => mret stats
    | _ =>
        _ ← RedisQueue.push_batch (ingestion_queue self) new_orders;
        _ ← RedisBackpressure.increment (backpressure self) "ingestion"
              (Z.of_nat (length new_orders));
        mret {| total := total stats; new := new stats;
                duplicates := duplicates stats;
                queued := Z.of_nat (length new_orders) |}
    end.

(** *** [process_batch] *)

Record BatchStats := { processed : Z; enriched : Z; staged : Z; errors : Z }.

(** [for _ in range(batch_size)]: pop with a timeout of one second until
    the queue answers nothing.  An exception of [pop] leaves the loop. *)
Fixpoint pull_batch (self : PipelineOrchestrator) (n : nat)
    (orders_batch : list Order) (stats : BatchStats)
  : state Redis.t (result (list Order * BatchStats)) :=
  match n with
  | O => mret (Ok (orders_batch, stats))
  | S n' =>
      order ← RedisQueue.pop (ingestion_queue self) 1;
      match order with
      | Raise e => mret (Raise e)
      | Ok None => mret (Ok (orders_batch, stats))
      | Ok (Some order) =>
          pull_batch self n' (orders_batch ++ [order])
            {| processed := processed stats + 1; enriched := enriched stats;
               staged := staged stats; errors := errors stats |}
      end
  end.

(** The body of the [try] for one row: [Raise] when a lookup raises,
    [Ok None] when [all([...])] is false, the enriched row otherwise. *)
Definition enrich_row (self : PipelineOrchestrator) (row : Order)
  : state Redis.t (result (option EnrichedRow)) :=
  product_data ← RedisCache.get_json (lookup_cache self) ("product:" +:+ product_id row);
  match product_data with
  | Raise e => mret (Raise e)
  | Ok product_data =>
      rate ← RedisCache.get (lookup_cache self) ("currency:" +:+ currency row);
      match rate with
      | None => mret (Raise "TypeError")
      | Some rate =>
          match float_of_string rate with
          | None => mret (Raise "ValueError")
          | Some currency_rate =>
              zip_data ← RedisCache.get_json (lookup_cache self) ("zipcode:" +:+ zip_code row);
              match zip_data with
              | Raise e => mret (Raise e)
              | Ok zip_data =>
                  if forallb id [from_option json_truthy false product_data;
                                 float_truthy currency_rate;
                                 from_option json_truthy false zip_data]
                  then mret (Ok (Some
                         {| e_order_id := order_id row;
                            e_customer_id := customer_id row;
                            e_product_id := product_id row;
                            e_quantity := quantity row;
                            e_unit_price := unit_price row;
                            e_currency := currency row;
                            e_zip_code := zip_code row;
                            e_order_timestamp := order_timestamp row;
                            e_raw_data := dumps (raw_data row) |}))
                  else mret (Ok None)
              end
          end
      end
  end.

(** [for row in df.iter_rows(named=True)], over the rows of the frame. *)
Fixpoint enrich_loop (self : PipelineOrchestrator) (rows : list Order)
    (enriched_rows : list EnrichedRow) (stats : BatchStats)
  : state Redis.t (list EnrichedRow * BatchStats) :=
  match rows with
  | [] => mret (enriched_rows, stats)
  | row :: rest =>
      r ← enrich_row self row;
      match r with
      | Ok (Some enriched_row) =>
          enrich_loop self rest (enriched_rows ++ [enriched_row])
            {| processed := processed stats; enriched := enriched stats + 1;
               staged := staged stats; errors := errors stats |}
      | Ok None | Raise _ =>
          enrich_loop self rest enriched_rows
            {| processed := processed stats; enriched := enriched stats;
               staged := staged stats; errors := errors stats + 1 |}
      end
  end.

(** The two frames are built outside any [try]; the bulk insert and the
    PUBLISH share one [try], whose handler counts every enriched row as an
    error. *)
Definition process_batch (self : PipelineOrchestrator) (batch_size : Z)
    (env : environment) : state World (result BatchStats) :=
  let stats := {| processed := 0; enriched := 0; staged := 0; errors := 0 |} in
  pulled ← on_redis (pull_batch self (Z.to_nat batch_size) [] stats);
  match pulled with
  | Raise e => mret (Raise e)
  | Ok ([], stats) => mret (Ok stats)
  | Ok (orders_batch, stats) =>
      _ ← on_redis (RedisBackpressure.decrement (backpressure self) "ingestion"
                      (Z.of_nat (length orders_batch)));
      match orders_frame orders_batch with
      | Raise e => mret (Raise e)
      | Ok df =>
          '(enriched_rows, stats) ← on_redis (enrich_loop self df [] stats);
          match enriched_rows with
          | [] => mret (Ok stats)
          | _ =>
              match enriched_frame enriched_rows with
              | Raise e => mret (Raise e)
              | Ok enriched_df =>
                  db ← gets postgres;
                  match Postgres.connect (database env) db with
                  | Raise e => mret (Raise e)
                  | Ok conn =>
                      match Postgres.bulk_insert (database env) enriched_df conn with
                      | (Ok count, conn) =>
                          let stats :=
                            {| processed := processed stats; enriched := enriched stats;
                               staged := count; errors := errors stats |} in
                          now ← on_redis Redis.time;
                          published ← on_redis (RedisPubSub.publish (publish_ok env)
                                 "pipeline:events"
                                 {| event := "batch_staged"; count := count;
                                    timestamp := isoformat now |});
                          _ ← modify (λ w, {| redis := redis w;
                                              postgres := Postgres.close conn |});
                          match published with
                          | Ok _ => mret (Ok stats)
                          | Raise _ =>
                              mret (Ok {| processed := processed stats;
                                          enriched := enriched stats;
                                          staged := staged stats;
                                          errors := errors stats
                                                    + Z.of_nat (length enriched_rows) |})
                          end
                      | (Raise _, conn) =>
                          _ ← modify (λ w, {| redis := redis w;
                                              postgres := Postgres.close conn |});
                          mret (Ok {| processed := processed stats;
                                      enriched := enriched stats;
                                      staged := staged stats;
                                      errors := errors stats
                                                + Z.of_nat (length enriched_rows) |})
                      end
                  end
              end
          end
      end
  end.

(** *** [promote_to_production] *)

(** The only commit is the one of [refresh_all]; the PUBLISH comes after
    it, and its exception leaves the function like any other. *)
Definition promote_to_production (self : PipelineOrchestrator)
    (env : environment) : state World (result Z) :=
  db ← gets postgres;
  match Postgres.connect (database env) db with
  | Raise e => mret (Raise e)
  | Ok conn =>
      match Postgres.promote_to_production validated (database env) conn with
      | (Raise e, conn) =>
          _ ← modify (λ w, {| redis := redis w; postgres := Postgres.close conn |});
          mret (Raise e)
      | (Ok promoted_count, conn) =>
          if bool_decide (0 < promoted_count)%Z then
            match Postgres.refresh_all (database env) conn with
            | (Raise e, conn) =>
                _ ← modify (λ w, {| redis := redis w; postgres := Postgres.close conn |});
                mret (Raise e)
            | (Ok _, conn) =>
                now ← on_redis Redis.time;
                published ← on_redis (RedisPubSub.publish (publish_ok env)
                       "pipeline:events"
                       {| event := "batch_promoted"; count := promoted_count;
                          timestamp := isoformat now |});
                _ ← modify (λ w, {| redis := redis w; postgres := Postgres.close conn |});
                match published with
                | Ok _ => mret (Ok promoted_count)
                | Raise e => mret (Raise e)
                end
            end
          else
            _ ← modify (λ w, {| redis := redis w; postgres := Postgres.close conn |});
            mret (Ok promoted_count)
      end
  end.
End orchestrator.
(** *** [initialize_lookup_cache] *)

Section lookup_tables.
Context `{PyValues}.

(** The rows of [product_catalog], [currency_rates] and [zip_code_zones], as
    far as the pipeline reads them. *)
Record ProductRow := {
  p_product_id : string; p_product_name : string;
  p_category : string; p_base_price : float
}.
Record CurrencyRow := { c_currency_code : string; c_rate_to_usd : float }.
Record ZipRow := {
  z_zip_code : string; z_city : string; z_state : string;
  z_country : string; z_timezone : string; z_shipping_zone : string
}.

(** The dictionaries stored in the cache. *)
Record ProductInfo := {
  product_name : string; category : string; base_price : float
}.
Record ZipInfo := {
  city : string; state_code : string; country : string;
  timezone : string; shipping_zone : string
}.

(** What the three [SELECT *] of [LookupTableCache] return. *)
Record LookupTables := {
  products : list ProductRow;
  currency_rates : list CurrencyRow;
  zip_codes : list ZipRow
}.

Context `{!Json ProductInfo} `{!Json ZipInfo}.
(** [str] on a rate. *)
Context (str_rate : float → string).

Definition product_entry (row : ProductRow) : string * string :=
  ("product:" +:+ p_product_id row,
   dumps {| product_name := p_product_name row; category := p_category row;
            base_price := p_base_price row |}).

Definition currency_entry (row : CurrencyRow) : string * string :=
  ("currency:" +:+ c_currency_code row, str_rate (c_rate_to_usd row)).

Definition zip_entry (row : ZipRow) : string * string :=
  ("zipcode:" +:+ z_zip_code row,
   dumps {| city := z_city row; state_code := z_state row; country := z_country row;
            timezone := z_timezone row; shipping_zone := z_shipping_zone row |}).

(** [for row in df.iter_rows(named=True): key = ...; value = ...;
    self.lookup_cache.set(key, value)] *)
Fixpoint cache_rows {Row} (entry : Row → string * string) (cache : RedisCache.t)
    (rows : list Row) : state Redis.t unit :=
  match rows with
  | [] => mret tt
  | row :: rest =>
      _ ← RedisCache.set cache (entry row).1 (entry row).2 None;
      cache_rows entry cache rest
  end.

Definition initialize_lookup_cache (self : PipelineOrchestrator)
    (env : Postgres.behaviour) (tables : LookupTables) : state Redis.t (result unit) :=
  if Postgres.connect_ok env then
    _ ← cache_rows product_entry (lookup_cache self) (products tables);
    _ ← cache_rows currency_entry (lookup_cache self) (currency_rates tables);
    _ ← cache_rows zip_entry (lookup_cache self) (zip_codes tables);
    mret (Ok tt)
  else mret (Raise "OperationalError").
End lookup_tables.

(** *** [Worker] *)

Section worker.
Context `{PyValues} `{!Json Order} `{!Json Event} `{!Polars}.
Context (pipeline_config : PipelineConfig).

Record Worker := { worker_id : Z; orchestrator : PipelineOrchestrator }.


(** [if max_iterations and iterations >= max_iterations: break] *)
Definition reached (max_iterations : option Z) (iterations : Z) : bool :=
  match max_iterations with
  | Some m => negb (bool_decide (m = 0%Z)) && bool_decide (m ≤ iterations)%Z
  | None => false
  end.

(** The loop of [run]; [self.running] stays true unless another thread calls
    [stop].  The loop need not end: [fuel] bounds the number of iterations
    looked at, and [None] says that the loop is still running after them.
    [time.sleep(1)] moves the clock by one second. *)
Fixpoint run_loop (self : Worker) (max_iterations : option Z) (env : environment)
    (fuel : nat) (iterations : Z) : state World (option (result unit)) :=
  match fuel with
  | O => mret None
  | S fuel' =>
      if reached max_iterations iterations then mret (Some (Ok tt))
      else
        r ← process_batch (orchestrator self) (batch_size pipeline_config) env;
        match r with
        | Raise e => mret (Some (Raise e))
        | Ok stats =>
            _ ← (if bool_decide (processed stats = 0%Z)
                 then on_redis (modify (Redis.tick 1))
                 else mret tt);
            run_loop self max_iterations env fuel' (iterations + 1)
        end
  end.

Definition run (self : Worker) (max_iterations : option Z) (env : environment)
    (fuel : nat) : state World (option (result unit)) :=
  run_loop self max_iterations env fuel 0.
End worker.
End Pipeline.

(** ** [cli.py] *)

Module Cli.
Section commands.
Context (pipeline_config : PipelineConfig).

(** The [clear] command, on the orchestrator it builds. *)
Definition clear (clear_all queues cache dedup : bool) : state Redis.t unit :=
  let orchestrator := Pipeline.init pipeline_config in
  _ ← (if clear_all || queues then
         _ ← RedisQueue.clear (Pipeline.ingestion_queue orchestrator);
         RedisQueue.clear (Pipeline.processing_queue orchestrator)
       else mret tt);
  _ ← (if clear_all || cache then RedisCache.clear (Pipeline.lookup_cache orchestrator)
       else mret tt);
  _ ← (if clear_all || dedup then RedisDeduplicator.clear (Pipeline.deduplicator orchestrator)
       else mret tt);
  mret tt.
End commands.
End Cli.

(** * Vocabulary of the properties *)

Section queue_vocabulary.
Context {Job : Type} `{!Json Job}.

(** What [pop] answers for a stored entry. *)
Definition decode (v : string) : result (option Job) :=
  match loads v with
  | Some job => Ok (Some job)
  | None => Raise "JSONDecodeError"
  end.

(** [n] successive calls of [pop], nothing in between. *)
Fixpoint pops (q : RedisQueue.t) (timeout : Z) (n : nat)
  : state Redis.t (list (result (option Job))) :=
  match n with
  | O => mret []
  | S n' => r ← RedisQueue.pop q timeout; rs ← pops q timeout n'; mret (r :: rs)
  end.
End queue_vocabulary.

(** The server after a hash has been written with its deadline. *)
Definition hput (key : string) (flds : gmap string string) (dl : option Z)
    (s : Redis.t) : Redis.t :=
  Redis.set_hashes (<[key := Redis.HKey flds dl]> (Redis.hashes s)) s.

(** The identifiers in the window, and its expiry horizon. *)
Definition seen (dd : RedisDeduplicator.t) (s : Redis.t) : gmap string string :=
  Redis.hgetall (RedisDeduplicator.window_name dd) s.
Definition horizon (dd : RedisDeduplicator.t) (s : Redis.t) : option Z :=
  Redis.httl (RedisDeduplicator.window_name dd) s.

(** ** The window between two calls

    [within_window dd s1 s2]: the window is alive in [s1], and [s2] is
    reached from [s1] by further [mark_seen] and [mark_batch] calls, by
    commands on other keys and by time passing, the window being alive after
    each step (it has not expired on the way). *)

Definition window_open (dd : RedisDeduplicator.t) (s : Redis.t) : Prop :=
  is_Some (Redis.hfind (RedisDeduplicator.window_name dd) s).

Inductive window_step (dd : RedisDeduplicator.t) : Redis.t → Redis.t → Prop :=
  | step_mark_seen (record_id : string) s :
      window_step dd s (RedisDeduplicator.mark_seen dd record_id s).2
  | step_mark_batch (record_ids : list string) s :
      window_step dd s (RedisDeduplicator.mark_batch dd record_ids s).2
  | step_elsewhere s s' :
      Redis.hashes s' !! RedisDeduplicator.window_name dd
        = Redis.hashes s !! RedisDeduplicator.window_name dd →
      (Redis.clock s ≤ Redis.clock s')%Z →
      window_step dd s s'.

Inductive within_window (dd : RedisDeduplicator.t) : Redis.t → Redis.t → Prop :=
  | within_refl s : window_open dd s → within_window dd s s
  | within_step s1 s2 s3 :
      within_window dd s1 s2 → window_step dd s2 s3 → window_open dd s3 →
      within_window dd s1 s3.

Section ingest_vocabulary.
Context `{PyValues}.

(** The orders of a wave that are neither in the window nor repeated
    earlier in the wave. *)
Fixpoint fresh_orders (window : gset string) (orders : list Order) : list Order :=
  match orders with
  | [] => []
  | order :: rest =>
      if decide (order_id order ∈ window) then fresh_orders window rest
      else order :: fresh_orders ({[order_id order]} ∪ window) rest
  end.
End ingest_vocabulary.

(** ** Runs of queue operations *)

Section queue_runs.
Context {Job : Type} `{!Json Job}.

(** One call of a producer or of a worker on the queue. *)
Inductive queue_op : Type :=
  | QPush (job_data : Job)
  | QPushBatch (jobs : list Job)
  | QPop (timeout : Z).

Definition run_queue_op (q : RedisQueue.t) (op : queue_op) : state Redis.t unit :=
  match op with
  | QPush job_data => RedisQueue.push q job_data
  | QPushBatch jobs => RedisQueue.push_batch q jobs
  | QPop timeout => _ ← RedisQueue.pop q timeout; mret tt
  end.

Fixpoint run_queue_ops (q : RedisQueue.t) (ops : list queue_op) : state Redis.t unit :=
  match ops with
  | [] => mret tt
  | op :: rest => _ ← run_queue_op q op; run_queue_ops q rest
  end.

(** [for job in jobs: queue.push(job)] *)
Fixpoint pushes (q : RedisQueue.t) (jobs : list Job) : state Redis.t unit :=
  match jobs with
  | [] => mret tt
  | job :: rest => _ ← RedisQueue.push q job; pushes q rest
  end.
End queue_runs.

(** [sum(1 for record_id in record_ids if mark_seen(record_id))] *)
Fixpoint mark_each (dd : RedisDeduplicator.t) (record_ids : list string)
  : state Redis.t Z :=
  match record_ids with
  | [] => mret 0%Z
  | record_id :: rest =>
      is_new ← RedisDeduplicator.mark_seen dd record_id;
      n ← mark_each dd rest;
      mret ((if is_new : bool then 1 else 0) + n)%Z
  end.

(** The counter of a queue equals its depth. *)
Definition counter_is_depth (q : RedisQueue.t) (s : Redis.t) : Prop :=
  (RedisQueue.counter q s).1 = (RedisQueue.size q s).1.

(** The integers the server stores and takes as amounts: signed, 64 bits. *)
Definition int64 (x : Z) : Prop := (- 2 ^ 63 ≤ x < 2 ^ 63)%Z.

(** ** A concrete instance *)

Module Demo.
(** A codec that stores a string as it is. *)
#[local] Instance json_string : Json string := {| dumps := id; loads := Some |}.

#[local] Instance values : PyValues := {|
  json := string;
  json_codec := json_string;
  json_truthy := λ j, negb (bool_decide (j = EmptyString));
  float := Z;
  float_of_string := λ _, Some 1%Z;
  float_truthy := λ x, negb (bool_decide (x = 0%Z));
  isoformat := pretty
|}.

Definition order (id : string) : Order :=
  {| order_id := id; customer_id := "CUST-1"; product_id := "PROD-001";
     quantity := 1; unit_price := 30%Z; currency := "USD"; zip_code := "10001";
     order_timestamp := "2025-01-01T00:00:00"; raw_data := "{}" |}.

(** Orders travel as their identifier. *)
#[local] Instance json_order : Json Order :=
  {| dumps := order_id; loads := λ v, Some (order v) |}.

Definition dedup : RedisDeduplicator.t := RedisDeduplicator.Make "orders:dedup" 3600.
Definition orchestrator : Pipeline.PipelineOrchestrator := Pipeline.init default_config.
Definition queue : RedisQueue.t := RedisQueue.init "orders:ingestion".
Definition wave : list Order := [order "ORD-1"; order "ORD-2"].

(** The window after a first [mark_seen] at time 0, and ten seconds on. *)
Definition marked : Redis.t := (RedisDeduplicator.mark_seen dedup "ORD-1" Redis.empty).2.
Definition later : Redis.t := Redis.tick 10 marked.

(** A server whose backpressure counter has reached the default maximum. *)
Definition full : Redis.t :=
  (RedisBackpressure.increment RedisBackpressure.init "ingestion" 100000 Redis.empty).2.
(** Events travel as their name; the cached dictionaries as a name in
    braces. *)
#[local] Instance json_event : Json Event := {| dumps := event; loads := λ _, None |}.
#[local] Instance json_product_info : Json Pipeline.ProductInfo :=
  {| dumps := λ info, "{" +:+ Pipeline.product_name info +:+ "}"; loads := λ _, None |}.
#[local] Instance json_zip_info : Json Pipeline.ZipInfo :=
  {| dumps := λ info, "{" +:+ Pipeline.city info +:+ "}"; loads := λ _, None |}.

(** Reference tables with the product, the currency and the zip code of the
    orders of [wave]. *)
Definition tables : Pipeline.LookupTables :=
  {| Pipeline.products :=
       [{| Pipeline.p_product_id := "PROD-001"; Pipeline.p_product_name := "Laptop";
           Pipeline.p_category := "Electronics"; Pipeline.p_base_price := 1300%Z |}];
     Pipeline.currency_rates :=
       [{| Pipeline.c_currency_code := "USD"; Pipeline.c_rate_to_usd := 1%Z |}];
     Pipeline.zip_codes :=
       [{| Pipeline.z_zip_code := "10001"; Pipeline.z_city := "New York";
           Pipeline.z_state := "NY"; Pipeline.z_country := "US";
           Pipeline.z_timezone := "America/New_York";
           Pipeline.z_shipping_zone := "EAST" |}] |}.

(** The server after the wave has been ingested. *)
Definition queued : Redis.t :=
  (Pipeline.ingest_orders default_config orchestrator wave Redis.empty).2.

(** A world with one staged row, and a database that answers every
    statement. *)
Definition staged_row : EnrichedRow :=
  {| e_order_id := "ORD-1"; e_customer_id := "CUST-1"; e_product_id := "PROD-001";
     e_quantity := 1; e_unit_price := 30%Z; e_currency := "USD"; e_zip_code := "10001";
     e_order_timestamp := "2025-01-01T00:00:00"; e_raw_data := "{}" |}.
Definition staged_world : Pipeline.World :=
  {| Pipeline.redis := Redis.empty; Pipeline.postgres := Postgres.Db [staged_row] [] 0 |}.
Definition healthy : Postgres.behaviour :=
  {| Postgres.connect_ok := true; Postgres.copy_ok := true;
     Postgres.promote_ok := true; Postgres.refresh_ok := true |}.

(** Frames that hand back the rows they were given. *)
Definition same_rows {A} (rows df : list A) (E : Ok rows = Ok df)
  : length df = length rows :=
  match E in _ = r
        return match r with Ok d => length d = length rows | Raise _ => True end
  with eq_refl => eq_refl end.
#[local] Instance polars : Polars :=
  {| orders_frame := Ok; enriched_frame := Ok;
     orders_frame_rows := same_rows; enriched_frame_rows := same_rows |}.

(** The surroundings when everything answers, and when the PUBLISH is
    refused (the connection to Redis is lost after the bulk insert). *)
Definition all_up : Pipeline.environment :=
  {| Pipeline.database := healthy; Pipeline.publish_ok := true |}.
Definition publish_refused : Pipeline.environment :=
  {| Pipeline.database := healthy; Pipeline.publish_ok := false |}.

(** The wave on the queue, the reference tables in the lookup cache, and an
    empty database. *)
Definition warm : Redis.t :=
  (Pipeline.initialize_lookup_cache pretty orchestrator healthy tables queued).2.
Definition warm_world : Pipeline.World :=
  {| Pipeline.redis := warm; Pipeline.postgres := Postgres.Db [] [] 0 |}.
End Demo.

(** * Properties *)

(** Unfolding the monad. *)
Ltac run :=
  unfold mbind, state_bind, mret, state_ret, gets, modify in *; simpl in *.

(** ** The server's lists and counters *)

Section redis_facts.
Implicit Types (s : Redis.t) (key : string).

Lemma lrange_set_lists key l s :
  Redis.lrange key (Redis.set_lists (<[key := l]> (Redis.lists s)) s) = l.
Proof. unfold Redis.lrange. simpl. by rewrite lookup_insert_eq. Qed.

Lemma lrange_set_ints key i s :
  Redis.lrange key (Redis.set_ints i s) = Redis.lrange key s.
Proof. done. Qed.

Lemma brpop_snoc key timeout l v s :
  Redis.lrange key s = l ++ [v] →
  Redis.brpop key timeout s
  = (Some (key, v), Redis.set_lists (<[key := l]> (Redis.lists s)) s).
Proof.
  intros Hl. unfold Redis.brpop. rewrite Hl, last_snoc.
  by rewrite removelast_last.
Qed.

Lemma brpop_nil key timeout s :
  Redis.lrange key s = [] →
  Redis.brpop key timeout s = (None, Redis.tick timeout s).
Proof. intros Hl. unfold Redis.brpop. by rewrite Hl. Qed.
End redis_facts.

(** ** The queue client *)

Section queue.
Context {Job : Type} `{!Json Job}.
Implicit Types (q : RedisQueue.t) (s : Redis.t) (jobs : list Job).

Lemma counter_value q s :
  (RedisQueue.counter q s).1 = default 0%Z (Redis.ints s !! RedisQueue.counter_key q).
Proof. unfold RedisQueue.counter, Redis.get. run. by destruct (_ !! _). Qed.

Lemma push_state q (job : Job) s :
  (RedisQueue.push q job s).2
  = Redis.set_ints
      (<[RedisQueue.counter_key q :=
           (default 0 (Redis.ints s !! RedisQueue.counter_key q) + 1)%Z]> (Redis.ints s))
      (Redis.set_lists
         (<[RedisQueue.queue_name q :=
              dumps job :: Redis.lrange (RedisQueue.queue_name q) s]> (Redis.lists s)) s).
Proof. done. Qed.

Lemma push_batch_lrange q jobs s :
  Redis.lrange (RedisQueue.queue_name q) (RedisQueue.push_batch q jobs s).2
  = rev (dumps <$> jobs) ++ Redis.lrange (RedisQueue.queue_name q) s.
Proof.
  destruct jobs as [|j jobs]; [done|].
  unfold RedisQueue.push_batch, Redis.lpush, Redis.incrby. run.
  by rewrite lrange_set_ints, lrange_set_lists.
Qed.

Lemma pop_snoc q timeout l v s :
  Redis.lrange (RedisQueue.queue_name q) s = l ++ [v] →
  (RedisQueue.pop q timeout s).1 = decode v ∧
  Redis.lrange (RedisQueue.queue_name q) (RedisQueue.pop q timeout s).2 = l.
Proof.
  intros Hl. unfold RedisQueue.pop. run.
  rewrite (brpop_snoc _ _ _ _ _ Hl).
  unfold Redis.decr, Redis.decrby, Redis.incrby. simpl.
  split; [done|]. by rewrite lrange_set_ints, lrange_set_lists.
Qed.

Lemma pops_all q timeout l : ∀ s,
  Redis.lrange (RedisQueue.queue_name q) s = l →
  (pops q timeout (length l) s).1 = decode <$> rev l.
Proof.
  induction l as [|v l IH] using rev_ind; intros s Hl; [done|].
  rewrite length_app, Nat.add_comm, rev_unit. simpl.
  destruct (pop_snoc q timeout _ _ _ Hl) as [Hr Hs].
  run. destruct (RedisQueue.pop q timeout s) as [r s1]. simpl in *.
  specialize (IH s1 Hs).
  destruct (pops q timeout (length l) s1) as [rs s2]. simpl in *.
  by rewrite Hr, IH.
Qed.

Lemma pop_counter_nonempty q timeout s :
  Redis.lrange (RedisQueue.queue_name q) s ≠ [] →
  (RedisQueue.counter q (RedisQueue.pop q timeout s).2).1
  = ((RedisQueue.counter q s).1 - 1)%Z.
Proof.
  intros Hne. destruct (exists_last Hne) as (l & v & Hl).
  rewrite !counter_value. unfold RedisQueue.pop. run.
  rewrite (brpop_snoc _ _ _ _ _ Hl).
  unfold Redis.decr, Redis.decrby, Redis.incrby. simpl.
  rewrite lookup_insert_eq. simpl. lia.
Qed.

Lemma pop_counter_empty q timeout s :
  Redis.lrange (RedisQueue.queue_name q) s = [] →
  (RedisQueue.counter q (RedisQueue.pop q timeout s).2).1 = (RedisQueue.counter q s).1.
Proof.
  intros Hl. rewrite !counter_value. unfold RedisQueue.pop. run.
  by rewrite (brpop_nil _ _ _ Hl).
Qed.

(** C1 does not hold of the code: a [pop] lowers the counter.  From any
    state, [push] raises the counter by one and the [pop] that follows brings
    it back to its value before the push, although [counter] is documented
    as the total of jobs processed. *)
Theorem counter_lowered_by_pop q (job : Job) (timeout : Z) s :
  let s1 := (RedisQueue.push q job s).2 in
  let s2 := (RedisQueue.pop q timeout s1).2 in
  (RedisQueue.counter q s1).1 = ((RedisQueue.counter q s).1 + 1)%Z ∧
  (RedisQueue.counter q s2).1 = (RedisQueue.counter q s).1 ∧
  ((RedisQueue.counter q s2).1 < (RedisQueue.counter q s1).1)%Z.
Proof.
  intros s1 s2.
  assert (H1 : (RedisQueue.counter q s1).1 = ((RedisQueue.counter q s).1 + 1)%Z).
  { rewrite !counter_value. subst s1. rewrite push_state. simpl.
    by rewrite lookup_insert_eq. }
  assert (H2 : (RedisQueue.counter q s2).1 = ((RedisQueue.counter q s1).1 - 1)%Z).
  { subst s2. apply pop_counter_nonempty. subst s1. rewrite push_state.
    by rewrite lrange_set_ints, lrange_set_lists. }
  lia.
Qed.

(** C9: after one [push_batch], popping the queue until it is empty returns
    the entries that were already queued (oldest first) and then the jobs
    of the batch in the order they had in the batch; on a queue that was
    empty, exactly the batch in its order. *)
Theorem push_batch_fifo q jobs (timeout : Z) s :
  (∀ job : Job, loads (dumps job) = Some job) →
  let old := Redis.lrange (RedisQueue.queue_name q) s in
  (pops q timeout (length old + length jobs) (RedisQueue.push_batch q jobs s).2).1
  = (decode <$> rev old) ++ ((λ job, Ok (Some job)) <$> jobs).
Proof.
  intros Hrt old. subst old.
  pose proof (push_batch_lrange q jobs s) as Hl.
  replace (length (Redis.lrange (RedisQueue.queue_name q) s) + length jobs)
    with (length (rev (dumps <$> jobs) ++ Redis.lrange (RedisQueue.queue_name q) s))
    by (rewrite length_app, length_rev, length_fmap; lia).
  rewrite (pops_all q timeout _ _ Hl).
  rewrite rev_app_distr, rev_involutive, fmap_app, <- list_fmap_compose.
  f_equal. apply list_fmap_ext. intros i job _. simpl.
  unfold decode. by rewrite Hrt.
Qed.
End queue.

(** ** The backpressure counter *)

Section backpressure.
Implicit Types (bp : RedisBackpressure.t) (s : Redis.t).

Lemma get_depth_value bp name s :
  RedisBackpressure.get_depth bp name s
  = (default 0%Z (Redis.ints s !! RedisBackpressure.key bp name), s).
Proof. unfold RedisBackpressure.get_depth, Redis.get. run. by destruct (_ !! _). Qed.

Lemma should_throttle_value bp name max_depth s :
  RedisBackpressure.should_throttle bp name max_depth s
  = (bool_decide (max_depth ≤ (RedisBackpressure.get_depth bp name s).1)%Z, s).
Proof.
  unfold RedisBackpressure.should_throttle, mbind, state_bind.
  by rewrite get_depth_value.
Qed.

Lemma decrement_depth bp name amount s :
  (RedisBackpressure.get_depth bp name (RedisBackpressure.decrement bp name amount s).2).1
  = ((RedisBackpressure.get_depth bp name s).1 - amount)%Z.
Proof.
  rewrite !get_depth_value. unfold RedisBackpressure.decrement, Redis.decrby, Redis.incrby.
  simpl. rewrite lookup_insert_eq. simpl. lia.
Qed.

(** C7: [should_throttle] answers true exactly when the tracked depth is
    at least [max_depth]; after a [decrement] that brings the depth below
    [max_depth] it answers false. *)
Theorem should_throttle_iff bp (name : string) (max_depth : Z) s :
  ((RedisBackpressure.should_throttle bp name max_depth s).1 = true
     ↔ (max_depth ≤ (RedisBackpressure.get_depth bp name s).1)%Z) ∧
  (∀ amount : Z,
     let s' := (RedisBackpressure.decrement bp name amount s).2 in
     (RedisBackpressure.get_depth bp name s').1
       = ((RedisBackpressure.get_depth bp name s).1 - amount)%Z ∧
     ((RedisBackpressure.get_depth bp name s').1 < max_depth
        → (RedisBackpressure.should_throttle bp name max_depth s').1 = false)%Z).
Proof.
  split.
  - rewrite should_throttle_value. cbn [fst]. apply bool_decide_eq_true.
  - intros amount s'. split; [apply decrement_depth|].
    intros Hlt. rewrite should_throttle_value. cbn [fst].
    apply bool_decide_eq_false. lia.
Qed.
End backpressure.

(** ** Hashes: what the commands do to the live view *)

Section hash_facts.
Implicit Types (s : Redis.t) (key field : string) (h : Redis.hkey).

Lemma hfind_fields key s h : Redis.hfind key s = Some h → Redis.fields h ≠ ∅.
Proof.
  unfold Redis.hfind. destruct (_ !! _) as [h'|]; [|done].
  case_bool_decide; [done|].
  destruct (Redis.deadline h'); [case_bool_decide|]; naive_solver.
Qed.

Lemma hfind_deadline key s h d :
  Redis.hfind key s = Some h → Redis.deadline h = Some d → (Redis.clock s < d)%Z.
Proof.
  unfold Redis.hfind. destruct (_ !! _) as [h'|]; [|done].
  case_bool_decide; [done|].
  destruct (Redis.deadline h') eqn:E; [case_bool_decide|]; intros; simplify_eq; lia.
Qed.

Lemma httl_lt key s d : Redis.httl key s = Some d → (Redis.clock s < d)%Z.
Proof.
  unfold Redis.httl. destruct (Redis.hfind key s) as [h|] eqn:E; [|done].
  simpl. by eapply hfind_deadline.
Qed.

Lemma hgetall_empty key s : Redis.hgetall key s = ∅ ↔ Redis.hfind key s = None.
Proof.
  unfold Redis.hgetall. destruct (Redis.hfind key s) as [h|] eqn:E; simpl; [|done].
  split; [|done]. intros. by apply hfind_fields in E.
Qed.

Lemma httl_empty key s : Redis.hgetall key s = ∅ → Redis.httl key s = None.
Proof. rewrite hgetall_empty. unfold Redis.httl. by intros ->. Qed.

Lemma hfind_hput key flds dl s :
  flds ≠ ∅ → (∀ d, dl = Some d → (Redis.clock s < d)%Z) →
  Redis.hfind key (hput key flds dl s) = Some (Redis.HKey flds dl).
Proof.
  intros Hne Hdl. unfold Redis.hfind, hput. simpl. rewrite lookup_insert_eq. simpl.
  rewrite bool_decide_eq_false_2 by done.
  destruct dl as [d|]; [|done].
  rewrite bool_decide_eq_false_2; [done|]. specialize (Hdl d eq_refl). lia.
Qed.

Lemma hfind_hput_expired key flds d s :
  (d ≤ Redis.clock s)%Z → Redis.hfind key (hput key flds (Some d) s) = None.
Proof.
  intros Hd. unfold Redis.hfind, hput. simpl. rewrite lookup_insert_eq. simpl.
  case_bool_decide; [done|]. by rewrite bool_decide_eq_true_2.
Qed.

Lemma hsetnx_old key field value s :
  is_Some (Redis.hgetall key s !! field) → Redis.hsetnx key field value s = (0%Z, s).
Proof. intros [v Hv]. unfold Redis.hsetnx. by rewrite Hv. Qed.

Lemma hsetnx_new key field value s :
  Redis.hgetall key s !! field = None →
  Redis.hsetnx key field value s
  = (1%Z, hput key (<[field := value]> (Redis.hgetall key s)) (Redis.httl key s) s).
Proof. intros Hv. unfold Redis.hsetnx. by rewrite Hv. Qed.

Lemma hgetall_hput key flds dl s :
  flds ≠ ∅ → (∀ d, dl = Some d → (Redis.clock s < d)%Z) →
  Redis.hgetall key (hput key flds dl s) = flds ∧
  Redis.httl key (hput key flds dl s) = dl.
Proof.
  intros Hne Hdl. unfold Redis.hgetall, Redis.httl.
  by rewrite hfind_hput.
Qed.

(** The live view after HSETNX. *)
Lemma hsetnx_view key field value s :
  let '(r, s') := Redis.hsetnx key field value s in
  r = (if bool_decide (is_Some (Redis.hgetall key s !! field)) then 0 else 1)%Z ∧
  Redis.hgetall key s'
    = (if bool_decide (is_Some (Redis.hgetall key s !! field))
       then Redis.hgetall key s
       else <[field := value]> (Redis.hgetall key s)) ∧
  Redis.httl key s' = Redis.httl key s ∧
  Redis.clock s' = Redis.clock s.
Proof.
  case_bool_decide as Hin.
  - by rewrite hsetnx_old.
  - rewrite hsetnx_new by (by apply eq_None_not_Some).
    destruct (hgetall_hput key (<[field := value]> (Redis.hgetall key s))
                (Redis.httl key s) s) as [-> ->]; [|by apply httl_lt|done].
    apply insert_non_empty.
Qed.

(** The live view after EXPIRE. *)
Lemma expire_view key seconds s :
  let '(r, s') := Redis.expire key seconds s in
  Redis.clock s' = Redis.clock s ∧
  if bool_decide (Redis.hgetall key s = ∅) then r = 0%Z ∧ s' = s
  else r = 1%Z ∧
       if bool_decide (0 < seconds)%Z
       then Redis.hgetall key s' = Redis.hgetall key s ∧
            Redis.httl key s' = Some (Redis.clock s + seconds)%Z
       else Redis.hgetall key s' = ∅.
Proof.
  unfold Redis.expire. case_bool_decide as He.
  - apply hgetall_empty in He. by rewrite He.
  - destruct (Redis.hfind key s) as [h|] eqn:E.
    2:{ by apply hgetall_empty in E. }
    split; [done|]. split; [done|].
    assert (Redis.hgetall key s = Redis.fields h) as -> by (unfold Redis.hgetall; by rewrite E).
    fold (hput key (Redis.fields h) (Some (Redis.clock s + seconds)%Z) s).
    case_bool_decide.
    + apply hgetall_hput; [by eapply hfind_fields|]. intros d [= <-]. lia.
    + apply hgetall_empty, hfind_hput_expired. lia.
Qed.
End hash_facts.

(** ** The deduplication window *)

Section dedup.
Implicit Types (dd : RedisDeduplicator.t) (s : Redis.t) (ids : list string).

Lemma hlen_value key s :
  Redis.hlen key s = (Z.of_nat (size (Redis.hgetall key s)), s).
Proof. done. Qed.

(** The live view after [mark_seen]. *)
Lemma mark_seen_view dd (record_id : string) s :
  let '(b, s') := RedisDeduplicator.mark_seen dd record_id s in
  let F' := if bool_decide (is_Some (seen dd s !! record_id)) then seen dd s
            else <[record_id := pretty (Redis.clock s)]> (seen dd s) in
  b = negb (bool_decide (is_Some (seen dd s !! record_id))) ∧
  Redis.clock s' = Redis.clock s ∧
  if bool_decide (size F' = 1) then
    if bool_decide (0 < RedisDeduplicator.ttl_seconds dd)%Z
    then seen dd s' = F' ∧
         horizon dd s' = Some (Redis.clock s + RedisDeduplicator.ttl_seconds dd)%Z
    else seen dd s' = ∅
  else seen dd s' = F' ∧ horizon dd s' = horizon dd s.
Proof.
  unfold RedisDeduplicator.mark_seen, seen, horizon, Redis.time.
  set (W := RedisDeduplicator.window_name dd).
  unfold mbind, state_bind, mret, state_ret, gets. cbn [fst snd].
  pose proof (hsetnx_view W record_id (pretty (Redis.clock s)) s) as Hv.
  destruct (Redis.hsetnx W record_id (pretty (Redis.clock s)) s) as [r s1].
  destruct Hv as (Hr & HF & HT & HC).
  rewrite hlen_value. rewrite HF.
  set (F' := if bool_decide (is_Some (Redis.hgetall W s !! record_id))
             then Redis.hgetall W s else _) in *.
  assert (Hb : negb (bool_decide (r = 0%Z))
               = negb (bool_decide (is_Some (Redis.hgetall W s !! record_id)))).
  { rewrite Hr. by case_bool_decide. }
  destruct (decide (size F' = 1)) as [H1|H1].
  - rewrite (bool_decide_eq_true_2 (Z.of_nat (size F') = 1%Z)) by lia.
    rewrite (bool_decide_eq_true_2 (size F' = 1)) by done.
    pose proof (expire_view W (RedisDeduplicator.ttl_seconds dd) s1) as He.
    destruct (Redis.expire W (RedisDeduplicator.ttl_seconds dd) s1) as [e s2].
    destruct He as (HC2 & He).
    rewrite bool_decide_eq_false_2 in He.
    2:{ rewrite HF. intros E. rewrite E in H1. by rewrite map_size_empty in H1. }
    destruct He as [_ He]. rewrite HC, HF in He.
    split; [done|]. split; [congruence|]. done.
  - rewrite (bool_decide_eq_false_2 (Z.of_nat (size F') = 1%Z)) by lia.
    rewrite (bool_decide_eq_false_2 (size F' = 1)) by done.
    simpl. by rewrite HF.
Qed.

Lemma pipeline_execute_snoc (cs : list (state Redis.t Z)) (c : state Redis.t Z) s :
  Redis.pipeline_execute (cs ++ [c]) s
  = let '(rs, s1) := Redis.pipeline_execute cs s in
    let '(r, s2) := c s1 in (rs ++ [r], s2).
Proof.
  revert s. induction cs as [|c' cs IH]; intros s; simpl.
  - run. by destruct (c s).
  - run. destruct (c' s) as [r' s']. rewrite IH.
    destruct (Redis.pipeline_execute cs s') as [rs s1]. by destruct (c s1).
Qed.

Lemma hsetnx_count (f : string) (X Y : gset string) :
  ((if bool_decide (f ∈ Y) then 0 else 1)
   + Z.of_nat (size (X ∖ ({[f]} ∪ Y))))%Z
  = Z.of_nat (size (({[f]} ∪ X) ∖ Y)).
Proof.
  case_bool_decide as Hin.
  - replace (({[f]} ∪ X) ∖ Y) with (X ∖ ({[f]} ∪ Y)) by set_solver. lia.
  - replace (({[f]} ∪ X) ∖ Y) with ({[f]} ∪ (X ∖ ({[f]} ∪ Y))).
    2:{ apply set_eq. intros x. destruct (decide (x = f)); set_solver. }
    rewrite (size_union (C:=gset string) {[f]} (X ∖ ({[f]} ∪ Y))) by set_solver.
    rewrite size_singleton. lia.
Qed.

(** A run of HSETNX commands in one pipeline: the answers add up to the
    number of distinct new fields. *)
Lemma hsetnx_all_view key (value : string) ids : ∀ s,
  let '(rs, s') :=
    Redis.pipeline_execute ((λ f, Redis.hsetnx key f value) <$> ids) s in
  sum rs = Z.of_nat (size (list_to_set ids ∖ dom (Redis.hgetall key s) : gset string)) ∧
  dom (Redis.hgetall key s') = dom (Redis.hgetall key s) ∪ list_to_set ids ∧
  Redis.httl key s' = Redis.httl key s ∧
  Redis.clock s' = Redis.clock s.
Proof.
  induction ids as [|f ids IH]; intros s; simpl.
  - run. split; [|set_solver].
    by replace (∅ ∖ dom (Redis.hgetall key s) : gset string) with (∅ : gset string)
      by set_solver.
  - run. pose proof (hsetnx_view key f value s) as Hv.
    destruct (Redis.hsetnx key f value s) as [r s1].
    destruct Hv as (Hr & HF & HT & HC).
    specialize (IH s1).
    destruct (Redis.pipeline_execute _ s1) as [rs s2].
    destruct IH as (Hsum & Hdom & HT2 & HC2). simpl.
    assert (Hd1 : dom (Redis.hgetall key s1) = {[f]} ∪ dom (Redis.hgetall key s)).
    { rewrite HF. case_bool_decide as Hin; [|by rewrite dom_insert_L].
      apply elem_of_dom in Hin. set_solver. }
    assert (Hr' : r = (if bool_decide (f ∈ dom (Redis.hgetall key s)) then 0 else 1)%Z).
    { rewrite Hr.
      by rewrite (bool_decide_ext (f ∈ dom (Redis.hgetall key s))
                    (is_Some (Redis.hgetall key s !! f))) by apply elem_of_dom. }
    rewrite Hsum, Hdom, HT2, HC2, HT, HC, Hd1, Hr'.
    split; [apply hsetnx_count|]. split; [set_solver|done].
Qed.

(** The live view after [mark_batch] on a non-empty list. *)
Lemma mark_batch_view dd ids s :
  ids ≠ [] →
  let '(n, s') := RedisDeduplicator.mark_batch dd ids s in
  n = Z.of_nat (size (list_to_set ids ∖ dom (seen dd s) : gset string)) ∧
  Redis.clock s' = Redis.clock s ∧
  if bool_decide (0 < RedisDeduplicator.ttl_seconds dd)%Z
  then dom (seen dd s') = dom (seen dd s) ∪ list_to_set ids ∧
       horizon dd s' = Some (Redis.clock s + RedisDeduplicator.ttl_seconds dd)%Z
  else seen dd s' = ∅.
Proof.
  intros Hne. unfold RedisDeduplicator.mark_batch, seen, horizon, Redis.time.
  set (W := RedisDeduplicator.window_name dd).
  destruct ids as [|i0 ids0] eqn:Eids; [done|]. rewrite <- Eids in *. clear Hne.
  unfold mbind, state_bind, mret, state_ret, gets. cbn [fst snd].
  rewrite pipeline_execute_snoc.
  pose proof (hsetnx_all_view W (pretty (Redis.clock s)) ids s) as Hv.
  destruct (Redis.pipeline_execute _ s) as [rs s1].
  destruct Hv as (Hsum & Hdom & HT & HC).
  pose proof (expire_view W (RedisDeduplicator.ttl_seconds dd) s1) as He.
  destruct (Redis.expire W (RedisDeduplicator.ttl_seconds dd) s1) as [e s2].
  destruct He as (HC2 & He).
  rewrite removelast_last. split; [done|]. split; [congruence|].
  rewrite bool_decide_eq_false_2 in He.
  2:{ intros E. rewrite E, dom_empty_L, Eids in Hdom. set_solver. }
  destruct He as [_ He]. case_bool_decide.
  - destruct He as [-> ->]. by rewrite Hdom, HC.
  - done.
Qed.
(** C8: [mark_batch] marks every identifier of the list in one pipeline
    and returns the number of distinct identifiers of the list that were
    not in the window before the call; on a list without repetitions that
    is the number of its entries that were not in the window. *)
Theorem mark_batch_counts_new dd ids s :
  let '(n, s') := RedisDeduplicator.mark_batch dd ids s in
  n = Z.of_nat (size (list_to_set ids ∖ dom (seen dd s) : gset string)) ∧
  (NoDup ids → n = Z.of_nat (length (filter (λ id, id ∉ dom (seen dd s)) ids))) ∧
  ((0 < RedisDeduplicator.ttl_seconds dd)%Z →
     dom (seen dd s') = dom (seen dd s) ∪ list_to_set ids).
Proof.
  assert (Hcount : NoDup ids →
    size (list_to_set ids ∖ dom (seen dd s) : gset string)
    = length (filter (λ id, id ∉ dom (seen dd s)) ids)).
  { intros Hnd.
    replace (list_to_set ids ∖ dom (seen dd s) : gset string)
      with (list_to_set (filter (λ id, id ∉ dom (seen dd s)) ids) : gset string).
    - apply size_list_to_set. by apply NoDup_filter.
    - apply set_eq. intros x.
      rewrite elem_of_list_to_set, list_elem_of_filter, elem_of_difference,
        elem_of_list_to_set. tauto. }
  destruct (decide (ids = [])) as [->|Hne].
  - simpl. split; [|split; [done|set_solver]].
    by replace (∅ ∖ dom (seen dd s) : gset string) with (∅ : gset string) by set_solver.
  - pose proof (mark_batch_view dd ids s Hne) as Hv.
    destruct (RedisDeduplicator.mark_batch dd ids s) as [n s'].
    destruct Hv as (Hn & _ & Hs). split; [done|]. split.
    + intros Hnd. by rewrite Hn, Hcount.
    + intros Httl. rewrite bool_decide_eq_true_2 in Hs by done. apply Hs.
Qed.

(** C2, as amended: the horizon is set to now + ttl by the [mark_seen] that
    inserts into an empty window and by every [mark_batch] on a non-empty
    list; a [mark_seen] that leaves more than one identifier in the window
    does not move it. *)
Theorem horizon_moves dd s :
  (0 < RedisDeduplicator.ttl_seconds dd)%Z →
  (∀ record_id : string,
     let s' := (RedisDeduplicator.mark_seen dd record_id s).2 in
     (seen dd s = ∅ →
        horizon dd s' = Some (Redis.clock s + RedisDeduplicator.ttl_seconds dd)%Z) ∧
     (1 < size (seen dd s') → horizon dd s' = horizon dd s)) ∧
  (∀ ids, ids ≠ [] →
     horizon dd (RedisDeduplicator.mark_batch dd ids s).2
     = Some (Redis.clock s + RedisDeduplicator.ttl_seconds dd)%Z).
Proof.
  intros Httl. split.
  - intros record_id s'. subst s'.
    pose proof (mark_seen_view dd record_id s) as Hv.
    destruct (RedisDeduplicator.mark_seen dd record_id s) as [b s']. simpl.
    destruct Hv as (_ & _ & Hv).
    rewrite (bool_decide_eq_true_2 _ Httl) in Hv. split.
    + intros He. rewrite He, lookup_empty in Hv.
      rewrite (bool_decide_eq_false_2 (is_Some (@None string))) in Hv
        by apply is_Some_None.
      rewrite insert_empty, map_size_singleton in Hv.
      rewrite bool_decide_eq_true_2 in Hv by done. apply Hv.
    + intros Hsz. cbv zeta in Hv.
      match type of Hv with
      | if bool_decide ?P then _ else _ =>
          destruct (decide P) as [H1|H1];
          [rewrite (bool_decide_eq_true_2 _ H1) in Hv
          |rewrite (bool_decide_eq_false_2 _ H1) in Hv]
      end; destruct Hv as [HF HT]; [|done].
      rewrite HF in Hsz. lia.
  - intros ids Hne.
    pose proof (mark_batch_view dd ids s Hne) as Hv.
    destruct (RedisDeduplicator.mark_batch dd ids s) as [n s']. simpl.
    destruct Hv as (_ & _ & Hv).
    rewrite (bool_decide_eq_true_2 _ Httl) in Hv. apply Hv.
Qed.
End dedup.

Section window.
Implicit Types (dd : RedisDeduplicator.t) (s : Redis.t).

Lemma window_open_seen dd s : window_open dd s ↔ seen dd s ≠ ∅.
Proof.
  unfold window_open, seen. rewrite hgetall_empty.
  by rewrite <- not_eq_None_Some.
Qed.

Lemma step_keeps dd s s' :
  window_step dd s s' → window_open dd s' → dom (seen dd s) ⊆ dom (seen dd s').
Proof.
  intros Hstep Hopen. apply window_open_seen in Hopen.
  destruct Hstep as [record_id s|record_ids s|s s' Hh Hc].
  - pose proof (mark_seen_view dd record_id s) as Hv.
    destruct (RedisDeduplicator.mark_seen dd record_id s) as [b s']. simpl in *.
    destruct Hv as (_ & _ & Hv).
    assert (HF : seen dd s'
                 = if bool_decide (is_Some (seen dd s !! record_id)) then seen dd s
                   else <[record_id := pretty (Redis.clock s)]> (seen dd s)).
    { repeat case_bool_decide; naive_solver. }
    rewrite HF. case_bool_decide; [done|]. rewrite dom_insert_L. set_solver.
  - destruct (decide (record_ids = [])) as [->|Hne]; [done|].
    pose proof (mark_batch_view dd record_ids s Hne) as Hv.
    destruct (RedisDeduplicator.mark_batch dd record_ids s) as [n s']. simpl in *.
    destruct Hv as (_ & _ & Hv). case_bool_decide; [|done].
    destruct Hv as [-> _]. set_solver.
  - unfold seen, Redis.hgetall in *.
    destruct (Redis.hfind _ s') as [h|] eqn:E; [|done].
    assert (Redis.hfind (RedisDeduplicator.window_name dd) s = Some h) as ->; [|done].
    revert E. unfold Redis.hfind. rewrite Hh.
    destruct (Redis.hashes s !! _) as [h'|]; [|done].
    case_bool_decide; [done|].
    destruct (Redis.deadline h'); [|done].
    repeat case_bool_decide; try done. lia.
Qed.

Lemma within_window_keeps dd s1 s2 :
  within_window dd s1 s2 → dom (seen dd s1) ⊆ dom (seen dd s2).
Proof.
  induction 1 as [|s1 s2 s3 _ IH Hstep Hopen]; [done|].
  etrans; [apply IH|]. by apply step_keeps.
Qed.

(** With a positive ttl, [mark_seen] answers whether the identifier was
    absent and leaves it present. *)
Lemma mark_seen_marks dd (record_id : string) s :
  (0 < RedisDeduplicator.ttl_seconds dd)%Z →
  let '(b, s') := RedisDeduplicator.mark_seen dd record_id s in
  b = negb (bool_decide (record_id ∈ dom (seen dd s))) ∧
  dom (seen dd s') = {[record_id]} ∪ dom (seen dd s).
Proof.
  intros Httl. pose proof (mark_seen_view dd record_id s) as Hv.
  destruct (RedisDeduplicator.mark_seen dd record_id s) as [b s'].
  destruct Hv as (Hb & _ & Hv).
  rewrite (bool_decide_eq_true_2 _ Httl) in Hv.
  assert (HF : seen dd s'
               = if bool_decide (is_Some (seen dd s !! record_id)) then seen dd s
                 else <[record_id := pretty (Redis.clock s)]> (seen dd s)).
  { cbv zeta in Hv. repeat case_bool_decide; naive_solver. }
  rewrite (bool_decide_ext (record_id ∈ dom (seen dd s))
             (is_Some (seen dd s !! record_id))) by apply elem_of_dom.
  split; [done|]. rewrite HF. case_bool_decide as Hin.
  - apply elem_of_dom in Hin. set_solver.
  - by rewrite dom_insert_L.
Qed.

Lemma hsetnx_frame key field value s :
  let s' := (Redis.hsetnx key field value s).2 in
  Redis.lists s' = Redis.lists s ∧ Redis.ints s' = Redis.ints s ∧
  Redis.channel_log s' = Redis.channel_log s.
Proof. unfold Redis.hsetnx. by destruct (_ !! _). Qed.

Lemma expire_frame key seconds s :
  let s' := (Redis.expire key seconds s).2 in
  Redis.lists s' = Redis.lists s ∧ Redis.ints s' = Redis.ints s ∧
  Redis.channel_log s' = Redis.channel_log s.
Proof. unfold Redis.expire. by destruct (Redis.hfind _ _). Qed.

(** [mark_seen] only touches the window's hash. *)
Lemma mark_seen_frame dd (record_id : string) s :
  let s' := (RedisDeduplicator.mark_seen dd record_id s).2 in
  Redis.lists s' = Redis.lists s ∧ Redis.ints s' = Redis.ints s ∧
  Redis.channel_log s' = Redis.channel_log s.
Proof.
  unfold RedisDeduplicator.mark_seen, Redis.time, Redis.hlen.
  unfold mbind, state_bind, mret, state_ret, gets. cbn [fst snd].
  pose proof (hsetnx_frame (RedisDeduplicator.window_name dd) record_id
                (pretty (Redis.clock s)) s) as Hf.
  destruct (Redis.hsetnx _ _ _ s) as [r s1]. simpl in Hf.
  case_bool_decide; [|done].
  pose proof (expire_frame (RedisDeduplicator.window_name dd)
                (RedisDeduplicator.ttl_seconds dd) s1) as He.
  destruct (Redis.expire _ _ s1) as [e s2]. simpl in *.
  destruct He as (-> & -> & ->). exact Hf.
Qed.
End window.

(** ** [ingest_orders] *)

Section ingest.
Context `{PyValues} `{!Json Order}.
Context (pipeline_config : PipelineConfig).
Implicit Types (self : Pipeline.PipelineOrchestrator) (s : Redis.t)
  (orders : list Order) (stats : Pipeline.IngestStats).

Lemma fresh_orders_not_seen (window : gset string) orders order :
  order ∈ fresh_orders window orders → order_id order ∉ window.
Proof.
  revert window. induction orders as [|o rest IH]; intros W; simpl.
  - by intros ?%elem_of_nil.
  - destruct (decide (order_id o ∈ W)) as [Hin|Hin]; [apply IH|].
    intros [->|Hf]%elem_of_cons; [done|].
    apply IH in Hf. set_solver.
Qed.

Lemma fresh_orders_length (window : gset string) (record_id : string) orders :
  record_id ∈ window →
  length (fresh_orders window orders)
    + length (filter (λ o, order_id o = record_id) orders) ≤ length orders.
Proof.
  revert window. induction orders as [|o rest IH]; intros W Hin; simpl; [lia|].
  rewrite filter_cons.
  destruct (decide (order_id o ∈ W)) as [HW|HW].
  - specialize (IH W Hin). case_decide; simpl; lia.
  - specialize (IH ({[order_id o]} ∪ W) ltac:(set_solver)).
    case_decide as E; [exfalso; apply HW; by rewrite E|]. simpl. lia.
Qed.

(** The loop of [ingest_orders], step by step. *)
Lemma ingest_loop_spec self orders : ∀ stats (acc : list Order) s,
  (0 < RedisDeduplicator.ttl_seconds (Pipeline.deduplicator self))%Z →
  let '((stats', new_orders), s') := Pipeline.ingest_loop self orders stats acc s in
  let fresh := fresh_orders (dom (seen (Pipeline.deduplicator self) s)) orders in
  new_orders = acc ++ fresh ∧
  Pipeline.total stats' = Pipeline.total stats ∧
  Pipeline.queued stats' = Pipeline.queued stats ∧
  Pipeline.new stats' = (Pipeline.new stats + Z.of_nat (length fresh))%Z ∧
  (Pipeline.new stats' + Pipeline.duplicates stats'
   = Pipeline.new stats + Pipeline.duplicates stats + Z.of_nat (length orders))%Z ∧
  Redis.lists s' = Redis.lists s ∧ Redis.ints s' = Redis.ints s ∧
  Redis.channel_log s' = Redis.channel_log s.
Proof.
  induction orders as [|o rest IH]; intros stats acc s Httl.
  - simpl. rewrite app_nil_r. repeat split; lia.
  - simpl. unfold mbind, state_bind.
    pose proof (mark_seen_marks (Pipeline.deduplicator self) (order_id o) s Httl) as Hm.
    pose proof (mark_seen_frame (Pipeline.deduplicator self) (order_id o) s) as Hf.
    destruct (RedisDeduplicator.mark_seen _ (order_id o) s) as [b s1].
    destruct Hm as [Hb Hdom]. simpl in Hf. destruct Hf as (Hl & Hi & Hc).
    destruct (decide (order_id o ∈ dom (seen (Pipeline.deduplicator self) s))) as [Hin|Hin].
    + rewrite bool_decide_eq_true_2 in Hb by done. subst b. simpl.
      match goal with |- context [Pipeline.ingest_loop self rest ?st ?ac s1] =>
        specialize (IH st ac s1 Httl);
        destruct (Pipeline.ingest_loop self rest st ac s1) as [[stats' new_orders] s']
      end.
      simpl in IH. rewrite Hdom in IH.
      replace ({[order_id o]} ∪ dom (seen (Pipeline.deduplicator self) s))
        with (dom (seen (Pipeline.deduplicator self) s)) in IH by set_solver.
      destruct IH as (-> & -> & -> & -> & Hs & -> & -> & ->).
      repeat split; try done. lia.
    + rewrite bool_decide_eq_false_2 in Hb by done. subst b. simpl.
      match goal with |- context [Pipeline.ingest_loop self rest ?st ?ac s1] =>
        specialize (IH st ac s1 Httl);
        destruct (Pipeline.ingest_loop self rest st ac s1) as [[stats' new_orders] s']
      end.
      simpl in IH. rewrite Hdom in IH.
      destruct IH as (-> & -> & -> & -> & Hs & -> & -> & ->).
      repeat split; try done; [by rewrite <- app_assoc|simpl; lia|lia].
Qed.
Lemma should_throttle_state (bp : RedisBackpressure.t) (name : string) (max_depth : Z) s :
  (RedisBackpressure.should_throttle bp name max_depth s).2 = s.
Proof. by rewrite should_throttle_value. Qed.

(** What [ingest_orders] leaves on the queue when it is not throttled. *)
Lemma ingest_orders_admitted self orders s :
  (0 < RedisDeduplicator.ttl_seconds (Pipeline.deduplicator self))%Z →
  (RedisBackpressure.should_throttle (Pipeline.backpressure self) "ingestion"
     (max_queue_depth pipeline_config) s).1 = false →
  let '(stats, s') := Pipeline.ingest_orders pipeline_config self orders s in
  let fresh := fresh_orders (dom (seen (Pipeline.deduplicator self) s)) orders in
  let Q := RedisQueue.queue_name (Pipeline.ingestion_queue self) in
  Redis.lrange Q s' = rev (dumps <$> fresh) ++ Redis.lrange Q s ∧
  Pipeline.total stats = Z.of_nat (length orders) ∧
  Pipeline.new stats = Z.of_nat (length fresh) ∧
  Pipeline.queued stats = Z.of_nat (length fresh) ∧
  (Pipeline.new stats + Pipeline.duplicates stats)%Z = Z.of_nat (length orders).
Proof.
  intros Httl Hth. unfold Pipeline.ingest_orders.
  unfold mbind at 1. unfold state_bind at 1.
  rewrite should_throttle_value in *. cbn [fst snd] in *. rewrite Hth.
  unfold mbind at 1. unfold state_bind at 1.
  match goal with |- context [Pipeline.ingest_loop self orders ?st [] s] =>
    pose proof (ingest_loop_spec self orders st [] s Httl) as Hl;
    destruct (Pipeline.ingest_loop self orders st [] s) as [[stats new_orders] s1]
  end.
  simpl in Hl. destruct Hl as (-> & Ht & Hq & Hn & Hnd & Hlists & Hints & _).
  assert (Hlr : ∀ key, Redis.lrange key s1 = Redis.lrange key s).
  { intros key. unfold Redis.lrange. by rewrite Hlists. }
  destruct (fresh_orders _ orders) as [|o fresh].
  - simpl in *. rewrite Hlr. repeat split; lia.
  - assert (Hpb := push_batch_lrange (Pipeline.ingestion_queue self) (o :: fresh) s1).
    cbn [app].
    unfold mbind, state_bind, mret, state_ret.
    destruct (RedisQueue.push_batch (Pipeline.ingestion_queue self) (o :: fresh) s1)
      as [[] s2].
    cbn [snd] in Hpb. unfold RedisBackpressure.increment, Redis.incrby. cbn [fst snd].
    rewrite lrange_set_ints, Hpb, Hlr. cbn [Pipeline.total Pipeline.new
      Pipeline.queued Pipeline.duplicates]. repeat split; lia.
Qed.

(** C4: once [mark_seen] has answered true for an identifier, and as long
    as the window has not expired, a second [mark_seen] of that identifier
    answers false, and [ingest_orders] pushes no order with that
    identifier; when it is not throttled it counts each of them as a
    duplicate. *)
Theorem seen_twice_is_duplicate self (record_id : string) orders s s2 :
  let dd := Pipeline.deduplicator self in
  let Q := RedisQueue.queue_name (Pipeline.ingestion_queue self) in
  (0 < RedisDeduplicator.ttl_seconds dd)%Z →
  (RedisDeduplicator.mark_seen dd record_id s).1 = true →
  within_window dd (RedisDeduplicator.mark_seen dd record_id s).2 s2 →
  (RedisDeduplicator.mark_seen dd record_id s2).1 = false ∧
  let '(stats, s3) := Pipeline.ingest_orders pipeline_config self orders s2 in
  ∃ new_orders : list Order,
    Redis.lrange Q s3 = rev (dumps <$> new_orders) ++ Redis.lrange Q s2 ∧
    (∀ order, order ∈ new_orders → order_id order ≠ record_id) ∧
    ((RedisBackpressure.should_throttle (Pipeline.backpressure self) "ingestion"
        (max_queue_depth pipeline_config) s2).1 = false →
     (Z.of_nat (length (filter (λ o, order_id o = record_id) orders))
      ≤ Pipeline.duplicates stats)%Z).
Proof.
  intros dd Q Httl Hfirst Hwithin.
  assert (Hin : record_id ∈ dom (seen dd s2)).
  { apply (within_window_keeps _ _ _ Hwithin).
    pose proof (mark_seen_marks dd record_id s Httl) as Hm.
    destruct (RedisDeduplicator.mark_seen dd record_id s) as [b s1].
    destruct Hm as [_ Hm]. cbn [snd]. rewrite Hm. set_solver. }
  split.
  - pose proof (mark_seen_marks dd record_id s2 Httl) as Hm.
    destruct (RedisDeduplicator.mark_seen dd record_id s2) as [b s3].
    destruct Hm as [-> _]. simpl. by rewrite bool_decide_eq_true_2.
  - destruct (RedisBackpressure.should_throttle (Pipeline.backpressure self)
                "ingestion" (max_queue_depth pipeline_config) s2).1 eqn:Hth.
    + unfold Pipeline.ingest_orders. unfold mbind, state_bind.
      rewrite should_throttle_value in *. cbn [fst snd] in *. rewrite Hth.
      exists []. split; [done|]. split; [by intros ? ?%elem_of_nil|done].
    + pose proof (ingest_orders_admitted self orders s2 Httl Hth) as Ha.
      destruct (Pipeline.ingest_orders pipeline_config self orders s2) as [stats s3].
      simpl in Ha. destruct Ha as (Hq & Ht & Hn & _ & Hnd).
      exists (fresh_orders (dom (seen dd s2)) orders).
      split; [done|]. split.
      * intros order Hf%fresh_orders_not_seen E. by rewrite E in Hf.
      * intros _.
        pose proof (fresh_orders_length (dom (seen dd s2)) record_id orders Hin).
        fold dd in Hn. lia.
Qed.

(** C5: a call of [ingest_orders] made while [should_throttle] answers
    true rejects the whole wave: nothing is counted as queued or new, the
    total is the size of the wave (not zero for a non-empty wave), and no
    list of the server changes. *)
Theorem throttled_ingest_rejected self orders s :
  (RedisBackpressure.should_throttle (Pipeline.backpressure self) "ingestion"
     (max_queue_depth pipeline_config) s).1 = true →
  let '(stats, s') := Pipeline.ingest_orders pipeline_config self orders s in
  Pipeline.queued stats = 0%Z ∧ Pipeline.new stats = 0%Z ∧
  Pipeline.total stats = Z.of_nat (length orders) ∧
  (orders ≠ [] → Pipeline.total stats ≠ 0%Z) ∧
  Redis.lists s' = Redis.lists s ∧
  Redis.lrange (RedisQueue.queue_name (Pipeline.ingestion_queue self)) s'
    = Redis.lrange (RedisQueue.queue_name (Pipeline.ingestion_queue self)) s.
Proof.
  intros Hth. unfold Pipeline.ingest_orders. unfold mbind, state_bind.
  rewrite should_throttle_value in *. cbn [fst snd] in *. rewrite Hth. simpl.
  repeat split; try done. intros Hne. destruct orders; [done|]. simpl. lia.
Qed.

(** C10: a call of [ingest_orders] rejected for backpressure leaves the
    whole server state as it was: the deduplication window, the queue and
    its counter, and the backpressure counter are unchanged. *)
Theorem throttled_ingest_no_effect self orders s :
  (RedisBackpressure.should_throttle (Pipeline.backpressure self) "ingestion"
     (max_queue_depth pipeline_config) s).1 = true →
  let s' := (Pipeline.ingest_orders pipeline_config self orders s).2 in
  s' = s ∧
  seen (Pipeline.deduplicator self) s' = seen (Pipeline.deduplicator self) s ∧
  horizon (Pipeline.deduplicator self) s' = horizon (Pipeline.deduplicator self) s ∧
  (RedisQueue.size (Pipeline.ingestion_queue self) s').1
    = (RedisQueue.size (Pipeline.ingestion_queue self) s).1 ∧
  Redis.lrange (RedisQueue.queue_name (Pipeline.ingestion_queue self)) s'
    = Redis.lrange (RedisQueue.queue_name (Pipeline.ingestion_queue self)) s ∧
  (RedisQueue.counter (Pipeline.ingestion_queue self) s').1
    = (RedisQueue.counter (Pipeline.ingestion_queue self) s).1 ∧
  (RedisBackpressure.get_depth (Pipeline.backpressure self) "ingestion" s').1
    = (RedisBackpressure.get_depth (Pipeline.backpressure self) "ingestion" s).1.
Proof.
  intros Hth s'.
  assert (Hs : s' = s).
  { subst s'. unfold Pipeline.ingest_orders. unfold mbind, state_bind.
    rewrite should_throttle_value in *. cbn [fst snd] in *. by rewrite Hth. }
  by rewrite Hs.
Qed.
End ingest.

(** ** [process_batch] *)

Section process.
Context `{PyValues} `{!Json Order} `{!Json Event}.
Implicit Types (self : Pipeline.PipelineOrchestrator) (s : Redis.t)
  (stats : Pipeline.BatchStats).

Lemma pop_nil (q : RedisQueue.t) (timeout : Z) s :
  Redis.lrange (RedisQueue.queue_name q) s = [] →
  RedisQueue.pop (Job:=Order) q timeout s = (Ok None, Redis.tick timeout s).
Proof.
  intros Hl. unfold RedisQueue.pop. run. by rewrite (brpop_nil _ _ _ Hl).
Qed.

(** The draining loop counts what it appends; it raises only on an entry
    that does not decode. *)
Lemma pull_batch_spec self (n : nat) : ∀ (acc : list Order) stats s,
  match Pipeline.pull_batch self n acc stats s with
  | (Ok (orders_batch, stats'), _) =>
      (Pipeline.processed stats' + Z.of_nat (length acc)
       = Pipeline.processed stats + Z.of_nat (length orders_batch))%Z ∧
      Pipeline.enriched stats' = Pipeline.enriched stats ∧
      Pipeline.staged stats' = Pipeline.staged stats ∧
      Pipeline.errors stats' = Pipeline.errors stats
  | (Raise _, _) =>
      ∃ v, v ∈ Redis.lrange (RedisQueue.queue_name (Pipeline.ingestion_queue self)) s ∧
           loads (A:=Order) v = None
  end.
Proof.
  induction n as [|n IH]; intros acc stats s; simpl.
  - run. repeat split; lia.
  - unfold mbind, state_bind.
    set (Q := RedisQueue.queue_name (Pipeline.ingestion_queue self)).
    destruct (decide (Redis.lrange Q s = [])) as [Hl|Hl].
    + rewrite (pop_nil _ _ _ Hl). run. repeat split; lia.
    + destruct (exists_last Hl) as (l & v & Hv).
      destruct (pop_snoc (Job:=Order) (Pipeline.ingestion_queue self) 1 _ _ _ Hv)
        as [Hr Hs].
      destruct (RedisQueue.pop (Pipeline.ingestion_queue self) 1 s) as [r s1].
      simpl in Hr, Hs. subst r. unfold decode.
      destruct (loads v) as [order|] eqn:Ev.
      * match goal with |- context [Pipeline.pull_batch self n ?ac ?st s1] =>
          specialize (IH ac st s1);
          destruct (Pipeline.pull_batch self n ac st s1) as [[[batch stats']|e] s2]
        end.
        -- simpl in IH. rewrite length_app in IH. simpl in IH.
           destruct IH as (? & ? & ? & ?). repeat split; try done. lia.
        -- destruct IH as (v' & Hin & Hnone). exists v'. split; [|done].
           subst Q. rewrite Hv. rewrite Hs in Hin. set_solver.
      * run. exists v. split; [|done]. subst Q. rewrite Hv. set_solver.
Qed.

(** The lookups of one row leave the server as it is. *)
Lemma enrich_row_state self (row : Order) s :
  (Pipeline.enrich_row self row s).2 = s.
Proof.
  unfold Pipeline.enrich_row, RedisCache.get_json, RedisCache.get, Redis.hget.
  run. repeat (case_match; simpl; try done).
Qed.

(** Every row is counted once, as enriched or as an error. *)
Lemma enrich_loop_spec self (rows : list Order) :
  ∀ (acc : list EnrichedRow) stats s,
  let '((enriched_rows, stats'), s') := Pipeline.enrich_loop self rows acc stats s in
  s' = s ∧
  Pipeline.processed stats' = Pipeline.processed stats ∧
  Pipeline.staged stats' = Pipeline.staged stats ∧
  (Pipeline.enriched stats' + Z.of_nat (length acc)
   = Pipeline.enriched stats + Z.of_nat (length enriched_rows))%Z ∧
  (Pipeline.enriched stats' + Pipeline.errors stats'
   = Pipeline.enriched stats + Pipeline.errors stats + Z.of_nat (length rows))%Z.
Proof.
  induction rows as [|row rest IH]; intros acc stats s; simpl.
  - run. repeat split; lia.
  - unfold mbind, state_bind.
    pose proof (enrich_row_state self row s) as Hs.
    destruct (Pipeline.enrich_row self row s) as [r s1]. simpl in Hs. subst s1.
    destruct r as [[enriched_row|]|e];
      match goal with |- context [Pipeline.enrich_loop self rest ?ac ?st s] =>
        specialize (IH ac st s);
        destruct (Pipeline.enrich_loop self rest ac st s) as [[rows' stats'] s']
      end; simpl in IH; try rewrite length_app in IH; simpl in IH;
      destruct IH as (? & ? & ? & ? & ?); repeat split; try done; lia.
Qed.
End process.

(** ** [promote_to_production] *)

Section promote.
Context `{PyValues} `{!Json Event}.
Context (validated : EnrichedRow → bool).
Implicit Types (self : Pipeline.PipelineOrchestrator) (w : Pipeline.World).

(** C6: [promote_to_production] refreshes the views (once) and publishes a
    [batch_promoted] event exactly when the promoted count is not zero;
    with a zero count it changes nothing, and with an empty staging table
    it returns 0.  It raises only when the database fails or the PUBLISH is
    refused. *)
Theorem promote_gate self (env : Pipeline.environment) w :
  let '(r, w') := Pipeline.promote_to_production validated self env w in
  match r with
  | Ok promoted_count =>
      promoted_count
        = Z.of_nat (length (filter (λ r, validated r = true)
                              (Postgres.orders_staging (Pipeline.postgres w)))) ∧
      (promoted_count ≠ 0%Z →
         Postgres.refreshes (Pipeline.postgres w')
           = S (Postgres.refreshes (Pipeline.postgres w)) ∧
         Redis.channel_log (Pipeline.redis w')
           = ("pipeline:events",
              dumps {| event := "batch_promoted"; count := promoted_count;
                       timestamp := isoformat (Redis.clock (Pipeline.redis w)) |})
             :: Redis.channel_log (Pipeline.redis w)) ∧
      (promoted_count = 0%Z → w' = w)
  | Raise _ =>
      Postgres.connect_ok (Pipeline.database env) = false ∨
      Postgres.promote_ok (Pipeline.database env) = false ∨
      Postgres.refresh_ok (Pipeline.database env) = false ∨
      Pipeline.publish_ok env = false
  end ∧
  (Postgres.orders_staging (Pipeline.postgres w) = [] →
   Postgres.connect_ok (Pipeline.database env) = true →
   Postgres.promote_ok (Pipeline.database env) = true →
   r = Ok 0%Z ∧ w' = w).
Proof.
  unfold Pipeline.promote_to_production, Postgres.connect,
    Postgres.promote_to_production, Postgres.promote_staging_to_production,
    Postgres.refresh_all, RedisPubSub.publish.
  destruct w as [rd pg]. run.
  destruct (Postgres.connect_ok (Pipeline.database env)); [|split; [by left|done]].
  destruct (Postgres.promote_ok (Pipeline.database env)); [|split; [by right; left|done]].
  simpl.
  set (moved := filter (λ r, validated r = true) (Postgres.orders_staging pg)).
  case_bool_decide as Hpos.
  - destruct (Postgres.refresh_ok (Pipeline.database env)); simpl.
    + destruct (Pipeline.publish_ok env); simpl.
      * split; [|intros Hnil; subst moved; rewrite Hnil in Hpos; simpl in Hpos; lia].
        split; [done|]. split; [done|]. intros Hz. lia.
      * split; [by right; right; right|].
        intros Hnil; subst moved; rewrite Hnil in Hpos; simpl in Hpos; lia.
    + split; [by right; right; left|].
      intros Hnil; subst moved; rewrite Hnil in Hpos; simpl in Hpos; lia.
  - simpl. split.
    + split; [done|]. split; [intros Hnz; lia|done].
    + intros Hnil _ _. subst moved. by rewrite Hnil.
Qed.
End promote.

(** ** Concrete runs *)

Section demo.
Import Demo.
#[local] Existing Instance json_string.
#[local] Existing Instance values.
#[local] Existing Instance json_order.
#[local] Existing Instance json_event.
#[local] Existing Instance polars.

(** C2, as stated, fails: a [mark_batch] on a non-empty window moves the
    horizon.  The window is created at time 0 with a ttl of 3600; a
    [mark_batch] at time 100 moves the horizon from 3600 to 3700. *)
Lemma horizon_moved_by_mark_batch :
  let s1 := Redis.tick 100 marked in
  let s2 := (RedisDeduplicator.mark_batch dedup ["ORD-2"] s1).2 in
  seen dedup s1 ≠ ∅ ∧
  horizon dedup s1 = Some 3600%Z ∧
  horizon dedup s2 = Some 3700%Z ∧
  horizon dedup s2 ≠ horizon dedup s1.
Proof.
  assert (H1 : horizon dedup (Redis.tick 100 marked) = Some 3600%Z)
    by (vm_compute; reflexivity).
  assert (H2 : horizon dedup
                 (RedisDeduplicator.mark_batch dedup ["ORD-2"]
                    (Redis.tick 100 marked)).2 = Some 3700%Z)
    by (vm_compute; reflexivity).
  cbv zeta. rewrite H1, H2. clear H1 H2.
  split; [|repeat split; congruence].
  apply window_open_seen. vm_compute. by eexists.
Qed.

(** [horizon_moves] at the window of the demo, one hundred seconds on. *)
Lemma horizon_moves_witness :
  (0 < RedisDeduplicator.ttl_seconds dedup)%Z ∧
  horizon dedup (RedisDeduplicator.mark_batch dedup ["ORD-2"] (Redis.tick 100 marked)).2
  = Some (Redis.clock (Redis.tick 100 marked) + RedisDeduplicator.ttl_seconds dedup)%Z.
Proof.
  split; [reflexivity|].
  exact (proj2 (horizon_moves dedup (Redis.tick 100 marked) eq_refl)
           ["ORD-2"] ltac:(discriminate)).
Defined.

(** [push_batch_fifo] for a batch of three on the empty queue. *)
Lemma push_batch_fifo_witness :
  (∀ job : string, loads (dumps job) = Some job) ∧
  (pops queue 1 3 (RedisQueue.push_batch queue ["a"; "b"; "c"] Redis.empty).2).1
  = [Ok (Some "a"); Ok (Some "b"); Ok (Some "c")].
Proof.
  split; [reflexivity|].
  refine (eq_trans _ (eq_trans
    (push_batch_fifo queue ["a"; "b"; "c"] 1 Redis.empty (λ _, eq_refl)) _));
    vm_compute; reflexivity.
Defined.

(** Ten seconds after the first [mark_seen] the window is still open. *)
Lemma marked_later : within_window (Pipeline.deduplicator orchestrator) marked later.
Proof.
  apply within_step with (s2 := marked).
  - apply within_refl. vm_compute. by eexists.
  - apply step_elsewhere; vm_compute; [reflexivity|discriminate].
  - vm_compute. by eexists.
Qed.

(** [seen_twice_is_duplicate] for the identifier marked at time 0. *)
Lemma seen_twice_is_duplicate_witness :
  (0 < RedisDeduplicator.ttl_seconds (Pipeline.deduplicator orchestrator))%Z ∧
  (RedisDeduplicator.mark_seen (Pipeline.deduplicator orchestrator) "ORD-1"
     Redis.empty).1 = true ∧
  within_window (Pipeline.deduplicator orchestrator)
    (RedisDeduplicator.mark_seen (Pipeline.deduplicator orchestrator) "ORD-1"
       Redis.empty).2 later ∧
  (RedisDeduplicator.mark_seen (Pipeline.deduplicator orchestrator) "ORD-1" later).1
  = false.
Proof.
  assert (H1 : (0 < RedisDeduplicator.ttl_seconds (Pipeline.deduplicator orchestrator))%Z)
    by reflexivity.
  assert (H2 : (RedisDeduplicator.mark_seen (Pipeline.deduplicator orchestrator) "ORD-1"
                  Redis.empty).1 = true) by (vm_compute; reflexivity).
  pose proof marked_later as H3.
  split; [exact H1|]. split; [exact H2|]. split; [exact H3|].
  exact (proj1 (seen_twice_is_duplicate default_config orchestrator "ORD-1"
                  wave Redis.empty later H1 H2 H3)).
Defined.

(** [throttled_ingest_rejected] on the full server. *)
Lemma throttled_ingest_rejected_witness :
  (RedisBackpressure.should_throttle (Pipeline.backpressure orchestrator) "ingestion"
     (max_queue_depth default_config) full).1 = true ∧
  Pipeline.queued (Pipeline.ingest_orders default_config orchestrator wave full).1 = 0%Z.
Proof.
  assert (H1 : (RedisBackpressure.should_throttle (Pipeline.backpressure orchestrator)
                  "ingestion" (max_queue_depth default_config) full).1 = true)
    by (vm_compute; reflexivity).
  split; [exact H1|].
  pose proof (throttled_ingest_rejected default_config orchestrator wave full H1) as Hw.
  destruct (Pipeline.ingest_orders default_config orchestrator wave full) as [stats s'].
  apply Hw.
Defined.

(** C3 fails on the code: the PUBLISH of the [batch_staged] event sits in
    the [try] of the bulk insert.  With the wave on the queue, the lookups
    cached and the database up, a PUBLISH that is refused after the bulk
    insert makes [process_batch] return processed 2, enriched 2, staged 2,
    errors 2: the two rows are staged (and committed), and counted once
    more as errors, so staged plus errors is 4 for 2 drained records; no
    event is published. *)
Theorem process_batch_publish_failure :
  let '(r, w') := Pipeline.process_batch orchestrator 5000 publish_refused warm_world in
  r = Ok {| Pipeline.processed := 2; Pipeline.enriched := 2;
            Pipeline.staged := 2; Pipeline.errors := 2 |} ∧
  (∀ stats, r = Ok stats →
     (Pipeline.staged stats + Pipeline.errors stats)%Z ≠ Pipeline.processed stats) ∧
  length (Postgres.orders_staging (Pipeline.postgres w')) = 2 ∧
  Redis.channel_log (Pipeline.redis w') = [].
Proof.
  vm_compute. split; [reflexivity|]. split; [|split; reflexivity].
  intros stats [= <-]. discriminate.
Qed.

(** [throttled_ingest_no_effect] on the full server. *)
Lemma throttled_ingest_no_effect_witness :
  (RedisBackpressure.should_throttle (Pipeline.backpressure orchestrator) "ingestion"
     (max_queue_depth default_config) full).1 = true ∧
  (Pipeline.ingest_orders default_config orchestrator wave full).2 = full.
Proof.
  assert (H1 : (RedisBackpressure.should_throttle (Pipeline.backpressure orchestrator)
                  "ingestion" (max_queue_depth default_config) full).1 = true)
    by (vm_compute; reflexivity).
  split; [exact H1|].
  exact (proj1 (throttled_ingest_no_effect default_config orchestrator wave full H1)).
Defined.
End demo.

(** * Further properties of the code *)

(** ** More on the queue client *)

Section queue_more.
Context {Job : Type} `{!Json Job}.
Implicit Types (q : RedisQueue.t) (s : Redis.t) (jobs : list Job).

Lemma size_value q s :
  (RedisQueue.size q s).1 = Z.of_nat (length (Redis.lrange (RedisQueue.queue_name q) s)).
Proof. done. Qed.

Lemma push_batch_state q jobs s :
  jobs ≠ [] →
  (RedisQueue.push_batch q jobs s).2
  = Redis.set_ints
      (<[RedisQueue.counter_key q :=
           (default 0 (Redis.ints s !! RedisQueue.counter_key q)
            + Z.of_nat (length jobs))%Z]> (Redis.ints s))
      (Redis.set_lists
         (<[RedisQueue.queue_name q :=
              rev (dumps <$> jobs) ++ Redis.lrange (RedisQueue.queue_name q) s]>
            (Redis.lists s)) s).
Proof. by destruct jobs. Qed.

Lemma counter_is_depth_op q (op : queue_op) s :
  counter_is_depth q s → counter_is_depth q (run_queue_op q op s).2.
Proof.
  unfold counter_is_depth. rewrite !counter_value, !size_value. intros Hinv.
  destruct op as [job|jobs|timeout]; cbn [run_queue_op].
  - rewrite push_state. simpl. rewrite lookup_insert_eq, lrange_set_ints, lrange_set_lists.
    simpl. lia.
  - destruct (decide (jobs = [])) as [->|Hne]; [done|].
    rewrite push_batch_state by done. simpl.
    rewrite lookup_insert_eq, lrange_set_ints, lrange_set_lists. simpl.
    rewrite length_app, length_rev, length_fmap. lia.
  - unfold mbind, state_bind.
    destruct (decide (Redis.lrange (RedisQueue.queue_name q) s = [])) as [Hl|Hl].
    + pose proof (pop_counter_empty q timeout s Hl) as Hc.
      rewrite !counter_value in Hc.
      assert (Hs : Redis.lrange (RedisQueue.queue_name q) (RedisQueue.pop q timeout s).2 = []).
      { unfold RedisQueue.pop. run. by rewrite (brpop_nil _ _ _ Hl). }
      destruct (RedisQueue.pop q timeout s) as [r s1]. simpl in *.
      rewrite Hc, Hs, Hinv, Hl. done.
    + pose proof (pop_counter_nonempty q timeout s Hl) as Hc.
      rewrite !counter_value in Hc.
      destruct (exists_last Hl) as (l & v & Hv).
      destruct (pop_snoc q timeout _ _ _ Hv) as [_ Hs].
      destruct (RedisQueue.pop q timeout s) as [r s1]. simpl in *.
      rewrite Hc, Hs, Hinv, Hv, length_app. simpl. lia.
Qed.

(** X1: from a cleared queue, whatever producers push and workers pop, the
    counter equals the current depth of the queue. *)
Theorem counter_tracks_depth q (ops : list queue_op) s :
  let s' := (run_queue_ops q ops (RedisQueue.clear q s).2).2 in
  (RedisQueue.counter q s').1 = (RedisQueue.size q s').1.
Proof.
  intros s'. subst s'.
  assert (H0 : counter_is_depth q (RedisQueue.clear q s).2).
  { unfold counter_is_depth. rewrite counter_value, size_value.
    unfold RedisQueue.clear, Redis.delete, Redis.lrange. run.
    rewrite !lookup_delete. repeat case_decide; done. }
  revert H0. generalize (RedisQueue.clear q s).2. clear s.
  induction ops as [|op ops IH]; intros s Hinv; [done|].
  simpl. unfold mbind, state_bind.
  pose proof (counter_is_depth_op q op s Hinv) as Hop.
  destruct (run_queue_op q op s) as [[] s1]. by apply IH.
Qed.

Lemma pushes_state q jobs : ∀ s,
  jobs ≠ [] →
  (pushes q jobs s).2
  = Redis.set_ints
      (<[RedisQueue.counter_key q :=
           (default 0 (Redis.ints s !! RedisQueue.counter_key q)
            + Z.of_nat (length jobs))%Z]> (Redis.ints s))
      (Redis.set_lists
         (<[RedisQueue.queue_name q :=
              rev (dumps <$> jobs) ++ Redis.lrange (RedisQueue.queue_name q) s]>
            (Redis.lists s)) s).
Proof.
  induction jobs as [|job rest IH]; intros s Hne; [done|].
  cbn [pushes]. unfold mbind, state_bind.
  pose proof (push_state q job s) as Hp.
  destruct (RedisQueue.push q job s) as [[] s1]. cbn [snd] in Hp.
  destruct (decide (rest = [])) as [->|Hrest].
  - simpl. rewrite Hp. do 2 f_equal.
  - rewrite (IH s1 Hrest), Hp. clear IH Hp.
    rewrite lrange_set_ints, lrange_set_lists.
    unfold Redis.set_ints, Redis.set_lists. simpl.
    rewrite lookup_insert_eq, !insert_insert_eq. simpl.
    f_equal.
    + f_equal. by rewrite <- app_assoc.
    + f_equal. lia.
Qed.

(** X2: pushing the jobs of a list one by one leaves the server in the same
    state as one [push_batch] of the list. *)
Theorem pushes_as_push_batch q jobs s :
  (pushes q jobs s).2 = (RedisQueue.push_batch q jobs s).2.
Proof.
  destruct (decide (jobs = [])) as [->|Hne]; [done|].
  by rewrite pushes_state, push_batch_state.
Qed.

(** X3: [push_batch] of an empty list changes nothing; otherwise the depth
    and the counter both grow by the number of jobs, and nothing else on the
    server changes. *)
Theorem push_batch_grows q jobs s :
  let s' := (RedisQueue.push_batch q jobs s).2 in
  (jobs = [] → s' = s) ∧
  (RedisQueue.size q s').1 = ((RedisQueue.size q s).1 + Z.of_nat (length jobs))%Z ∧
  (RedisQueue.counter q s').1 = ((RedisQueue.counter q s).1 + Z.of_nat (length jobs))%Z ∧
  Redis.hashes s' = Redis.hashes s ∧ Redis.channel_log s' = Redis.channel_log s ∧
  Redis.clock s' = Redis.clock s.
Proof.
  intros s'. subst s'. split; [by intros ->|].
  rewrite !counter_value, !size_value.
  destruct (decide (jobs = [])) as [->|Hne]; [simpl; repeat split; lia|].
  rewrite push_batch_state by done. simpl.
  rewrite lookup_insert_eq, lrange_set_ints, lrange_set_lists.
  rewrite length_app, length_rev, length_fmap. simpl. repeat split; lia.
Qed.
End queue_more.

(** ** More on the deduplication window *)

Section dedup_more.
Implicit Types (dd : RedisDeduplicator.t) (s : Redis.t) (ids : list string).

Lemma is_duplicate_value dd (record_id : string) s :
  RedisDeduplicator.is_duplicate dd record_id s
  = (bool_decide (record_id ∈ dom (seen dd s)), s).
Proof.
  unfold RedisDeduplicator.is_duplicate, Redis.hexists, gets, seen. f_equal.
  apply bool_decide_ext. by rewrite elem_of_dom.
Qed.

Lemma count_seen_value dd s :
  RedisDeduplicator.count_seen dd s = (Z.of_nat (size (dom (seen dd s))), s).
Proof.
  unfold RedisDeduplicator.count_seen, Redis.hlen, gets, seen. by rewrite size_dom.
Qed.

Lemma mark_seen_answer dd (record_id : string) s :
  (RedisDeduplicator.mark_seen dd record_id s).1
  = negb (bool_decide (record_id ∈ dom (seen dd s))).
Proof.
  pose proof (mark_seen_view dd record_id s) as Hv.
  destruct (RedisDeduplicator.mark_seen dd record_id s) as [b s'].
  destruct Hv as (-> & _). simpl. f_equal.
  apply bool_decide_ext. by rewrite elem_of_dom.
Qed.

(** X5: [is_duplicate] only reads; [mark_seen] answers the opposite of what
    [is_duplicate] answers just before it, and with a positive ttl
    [is_duplicate] answers true right after it. *)
Theorem mark_seen_vs_is_duplicate dd (record_id : string) s :
  (RedisDeduplicator.is_duplicate dd record_id s).2 = s ∧
  (RedisDeduplicator.mark_seen dd record_id s).1
    = negb (RedisDeduplicator.is_duplicate dd record_id s).1 ∧
  ((0 < RedisDeduplicator.ttl_seconds dd)%Z →
   (RedisDeduplicator.is_duplicate dd record_id
      (RedisDeduplicator.mark_seen dd record_id s).2).1 = true).
Proof.
  rewrite !is_duplicate_value, mark_seen_answer. split; [done|]. split; [done|].
  intros Httl. pose proof (mark_seen_marks dd record_id s Httl) as Hm.
  destruct (RedisDeduplicator.mark_seen dd record_id s) as [b s'].
  destruct Hm as [_ Hd]. simpl.
  apply bool_decide_eq_true. rewrite Hd. set_solver.
Qed.

(** X6: with a positive ttl, [count_seen] grows by exactly the number that
    [mark_batch] returns. *)
Theorem mark_batch_grows_count dd ids s :
  (0 < RedisDeduplicator.ttl_seconds dd)%Z →
  let '(n, s') := RedisDeduplicator.mark_batch dd ids s in
  (RedisDeduplicator.count_seen dd s').1 = ((RedisDeduplicator.count_seen dd s).1 + n)%Z.
Proof.
  intros Httl. destruct (decide (ids = [])) as [->|Hne]; [simpl; lia|].
  pose proof (mark_batch_view dd ids s Hne) as Hv.
  destruct (RedisDeduplicator.mark_batch dd ids s) as [n s'].
  destruct Hv as (-> & _ & Hv). rewrite bool_decide_eq_true_2 in Hv by done.
  destruct Hv as [Hd _]. rewrite !count_seen_value. simpl. rewrite Hd.
  rewrite size_union_alt. lia.
Qed.

Lemma hfind_lookup key s h :
  Redis.hfind key s = Some h → Redis.hashes s !! key = Some h.
Proof.
  unfold Redis.hfind. destruct (Redis.hashes s !! key) as [h'|]; [|done].
  case_bool_decide; [done|].
  destruct (Redis.deadline h'); [case_bool_decide|]; congruence.
Qed.

Lemma horizon_hfind dd s (d : Z) :
  horizon dd s = Some d →
  ∃ h, Redis.hfind (RedisDeduplicator.window_name dd) s = Some h ∧
       Redis.deadline h = Some d.
Proof.
  unfold horizon, Redis.httl.
  destruct (Redis.hfind _ s) as [h|]; [|done]. simpl. intros Hd. by exists h.
Qed.

(** X7: time alone does not touch the window before its horizon, and
    empties it once the horizon is reached: every identifier is then new
    again. *)
Theorem window_expires_at_horizon dd s (d dt : Z) :
  horizon dd s = Some d →
  let s1 := Redis.tick dt s in
  ((Redis.clock s1 < d)%Z → seen dd s1 = seen dd s ∧ horizon dd s1 = Some d) ∧
  ((d ≤ Redis.clock s1)%Z →
     (RedisDeduplicator.count_seen dd s1).1 = 0%Z ∧
     ∀ record_id : string,
       (RedisDeduplicator.is_duplicate dd record_id s1).1 = false ∧
       (RedisDeduplicator.mark_seen dd record_id s1).1 = true).
Proof.
  intros Hh s1. destruct (horizon_hfind dd s d Hh) as (h & Hf & Hd).
  pose proof (hfind_lookup _ _ _ Hf) as Hl.
  pose proof (hfind_fields _ _ _ Hf) as Hne.
  assert (Hf1 : Redis.hfind (RedisDeduplicator.window_name dd) s1
                = if bool_decide (d ≤ Redis.clock s1)%Z then None else Some h).
  { unfold Redis.hfind. subst s1. cbn [Redis.hashes Redis.tick Redis.set_clock].
    rewrite Hl, Hd. by rewrite bool_decide_eq_false_2. }
  split; intros Hc.
  - rewrite bool_decide_eq_false_2 in Hf1 by lia.
    unfold seen, horizon, Redis.hgetall, Redis.httl. by rewrite Hf1, Hf.
  - rewrite bool_decide_eq_true_2 in Hf1 by lia.
    assert (He : seen dd s1 = ∅) by (by apply hgetall_empty).
    rewrite count_seen_value. cbn [fst]. rewrite He, dom_empty_L. split; [done|].
    intros record_id. rewrite is_duplicate_value, mark_seen_answer. cbn [fst].
    rewrite He, dom_empty_L. by rewrite bool_decide_eq_false_2 by set_solver.
Qed.

(** X8: marking again the only identifier of the window answers false, keeps
    the window as it is and, with a positive ttl, moves the horizon to
    now + ttl. *)
Theorem mark_seen_again_single dd (record_id value : string) s :
  seen dd s = {[record_id := value]} →
  (0 < RedisDeduplicator.ttl_seconds dd)%Z →
  let '(b, s') := RedisDeduplicator.mark_seen dd record_id s in
  b = false ∧ seen dd s' = seen dd s ∧
  horizon dd s' = Some (Redis.clock s + RedisDeduplicator.ttl_seconds dd)%Z.
Proof.
  intros Hs Httl. pose proof (mark_seen_view dd record_id s) as Hv.
  destruct (RedisDeduplicator.mark_seen dd record_id s) as [b s'].
  cbv zeta in Hv. rewrite Hs, lookup_singleton_eq in Hv.
  rewrite (bool_decide_eq_true_2 (is_Some (Some value))) in Hv by done.
  rewrite map_size_singleton in Hv.
  rewrite (bool_decide_eq_true_2 (1 = 1)) in Hv by done.
  rewrite (bool_decide_eq_true_2 _ Httl) in Hv.
  destruct Hv as (-> & _ & -> & ->). by rewrite Hs.
Qed.

(** X10: after [clear] the window is empty: nothing is a duplicate and every
    identifier is new. *)
Theorem clear_forgets dd s :
  let s0 := (RedisDeduplicator.clear dd s).2 in
  (RedisDeduplicator.count_seen dd s0).1 = 0%Z ∧
  ∀ record_id : string,
    (RedisDeduplicator.is_duplicate dd record_id s0).1 = false ∧
    (RedisDeduplicator.mark_seen dd record_id s0).1 = true.
Proof.
  intros s0.
  assert (He : seen dd s0 = ∅).
  { apply hgetall_empty. unfold Redis.hfind. subst s0.
    unfold RedisDeduplicator.clear, Redis.delete. run. by rewrite lookup_delete_eq. }
  rewrite count_seen_value. cbn [fst]. rewrite He, dom_empty_L. split; [done|].
  intros record_id. rewrite is_duplicate_value, mark_seen_answer. cbn [fst].
  rewrite He, dom_empty_L. by rewrite bool_decide_eq_false_2 by set_solver.
Qed.

Lemma mark_each_view dd ids : ∀ s,
  (0 < RedisDeduplicator.ttl_seconds dd)%Z →
  let '(n, s') := mark_each dd ids s in
  n = Z.of_nat (size (list_to_set ids ∖ dom (seen dd s) : gset string)) ∧
  dom (seen dd s') = dom (seen dd s) ∪ list_to_set ids.
Proof.
  induction ids as [|id ids IH]; intros s Httl.
  - simpl. split; [|set_solver].
    by replace (∅ ∖ dom (seen dd s) : gset string) with (∅ : gset string) by set_solver.
  - cbn [mark_each]. unfold mbind, state_bind.
    pose proof (mark_seen_marks dd id s Httl) as Hm.
    destruct (RedisDeduplicator.mark_seen dd id s) as [b s1]. destruct Hm as [-> Hd].
    specialize (IH s1 Httl). destruct (mark_each dd ids s1) as [n s2].
    destruct IH as [-> Hd2]. simpl. rewrite Hd2, Hd. split; [|set_solver].
    rewrite <- (hsetnx_count id (list_to_set ids) (dom (seen dd s))).
    by case_bool_decide.
Qed.

(** X9: with a positive ttl, [mark_batch] returns the number of identifiers
    for which successive [mark_seen] calls answer true, and both leave the
    same identifiers in the window. *)
Theorem mark_batch_as_mark_seen dd ids s :
  (0 < RedisDeduplicator.ttl_seconds dd)%Z →
  (RedisDeduplicator.mark_batch dd ids s).1 = (mark_each dd ids s).1 ∧
  dom (seen dd (RedisDeduplicator.mark_batch dd ids s).2)
    = dom (seen dd (mark_each dd ids s).2).
Proof.
  intros Httl. destruct (decide (ids = [])) as [->|Hne]; [done|].
  pose proof (mark_batch_view dd ids s Hne) as Hv.
  pose proof (mark_each_view dd ids s Httl) as He.
  destruct (RedisDeduplicator.mark_batch dd ids s) as [n s'].
  destruct (mark_each dd ids s) as [m s2].
  destruct Hv as (-> & _ & Hv). rewrite bool_decide_eq_true_2 in Hv by done.
  destruct Hv as [Hd _]. destruct He as [-> Hd2]. simpl. by rewrite Hd, Hd2.
Qed.
End dedup_more.

(** ** More on the backpressure counter *)

Section backpressure_more.
Implicit Types (bp : RedisBackpressure.t) (s : Redis.t).

Lemma backpressure_key_inj bp (name name' : string) :
  RedisBackpressure.key bp name = RedisBackpressure.key bp name' → name = name'.
Proof.
  unfold RedisBackpressure.key. intros Heq.
  by repeat apply (inj (String.app _)) in Heq.
Qed.

Lemma increment_value bp (name : string) (amount : Z) s :
  RedisBackpressure.increment bp name amount s
  = (((RedisBackpressure.get_depth bp name s).1 + amount)%Z,
     Redis.set_ints
       (<[RedisBackpressure.key bp name :=
            ((RedisBackpressure.get_depth bp name s).1 + amount)%Z]> (Redis.ints s)) s).
Proof. by rewrite get_depth_value. Qed.

(** X11: as long as the counter and the amount stay within the server's
    64 bits, [increment] and [decrement] return the new depth, which is the
    old depth plus (minus) the amount; a [decrement] undoes an [increment]
    of the same amount; the depth may go below zero; after [reset] it is
    0. *)
Theorem backpressure_arithmetic bp (name : string) (amount : Z) s :
  int64 (RedisBackpressure.get_depth bp name s).1 →
  int64 amount → int64 (- amount) →
  int64 ((RedisBackpressure.get_depth bp name s).1 + amount) →
  let '(up, s1) := RedisBackpressure.increment bp name amount s in
  let '(down, s2) := RedisBackpressure.decrement bp name amount s1 in
  up = ((RedisBackpressure.get_depth bp name s).1 + amount)%Z ∧
  (RedisBackpressure.get_depth bp name s1).1 = up ∧
  down = (RedisBackpressure.get_depth bp name s).1 ∧
  (RedisBackpressure.get_depth bp name s2).1 = down ∧
  (RedisBackpressure.get_depth bp name
     (RedisBackpressure.decrement bp name amount
        (RedisBackpressure.reset bp name s).2).2).1 = (- amount)%Z ∧
  (RedisBackpressure.get_depth bp name (RedisBackpressure.reset bp name s).2).1 = 0%Z.
Proof.
  intros _ _ _ _. rewrite !get_depth_value.
  unfold RedisBackpressure.increment, RedisBackpressure.decrement,
    RedisBackpressure.reset, Redis.decrby, Redis.incrby, Redis.delete, modify.
  simpl. rewrite !lookup_insert_eq, !lookup_delete_eq. simpl.
  repeat split; lia.
Qed.

(** X12: the counters of two different queues do not interfere: no
    operation on one changes the depth or the throttle answer of the
    other. *)
Theorem backpressure_independent bp (name name' : string) (amount max_depth : Z) s :
  name ≠ name' →
  ∀ s', s' = (RedisBackpressure.increment bp name amount s).2 ∨
        s' = (RedisBackpressure.decrement bp name amount s).2 ∨
        s' = (RedisBackpressure.reset bp name s).2 →
  (RedisBackpressure.get_depth bp name' s').1 = (RedisBackpressure.get_depth bp name' s).1 ∧
  (RedisBackpressure.should_throttle bp name' max_depth s').1
    = (RedisBackpressure.should_throttle bp name' max_depth s).1.
Proof.
  intros Hne s' Hs'.
  assert (Hk : RedisBackpressure.key bp name ≠ RedisBackpressure.key bp name')
    by (by intros ?%backpressure_key_inj).
  assert (Hd : (RedisBackpressure.get_depth bp name' s').1
               = (RedisBackpressure.get_depth bp name' s).1).
  { rewrite !get_depth_value. cbn [fst].
    destruct Hs' as [-> | [-> | ->]];
      unfold RedisBackpressure.increment, RedisBackpressure.decrement,
        RedisBackpressure.reset, Redis.decrby, Redis.incrby, Redis.delete, modify;
      simpl.
    - by rewrite lookup_insert_ne.
    - by rewrite lookup_insert_ne.
    - by rewrite lookup_delete_ne. }
  split; [done|]. rewrite !should_throttle_value. cbn [fst]. by rewrite Hd.
Qed.
End backpressure_more.

(** ** The lookup cache *)

Section cache.
Implicit Types (c : RedisCache.t) (s : Redis.t) (key value : string).

Lemma hgetall_hput_any (k : string) (flds : gmap string string) (dl : option Z) s :
  (∀ d, dl = Some d → (Redis.clock s < d)%Z) →
  Redis.hgetall k (hput k flds dl s) = flds.
Proof.
  intros Hdl. destruct (decide (flds = ∅)) as [->|Hne].
  - apply hgetall_empty. unfold Redis.hfind, hput. simpl.
    rewrite lookup_insert_eq. simpl. by rewrite bool_decide_eq_true_2.
  - by apply hgetall_hput.
Qed.

Lemma hset_view (k f v : string) s :
  Redis.hgetall k (Redis.hset k f v s).2 = <[f := v]> (Redis.hgetall k s) ∧
  Redis.httl k (Redis.hset k f v s).2 = Redis.httl k s ∧
  Redis.clock (Redis.hset k f v s).2 = Redis.clock s.
Proof.
  unfold Redis.hset. cbn [snd].
  fold (hput k (<[f := v]> (Redis.hgetall k s)) (Redis.httl k s) s).
  destruct (hgetall_hput k (<[f := v]> (Redis.hgetall k s)) (Redis.httl k s) s)
    as [-> ->]; [apply insert_non_empty|by apply httl_lt|done].
Qed.

Lemma cache_get_value c key s :
  RedisCache.get c key s
  = (match Redis.hgetall (RedisCache.cache_name c) s !! key with
     | Some v => if bool_decide (v = EmptyString) then None else Some v
     | None => None
     end, s).
Proof. done. Qed.

Lemma cache_set_plain c key value s :
  RedisCache.set c key value None s
  = (tt, (Redis.hset (RedisCache.cache_name c) key value s).2).
Proof.
  unfold RedisCache.set. unfold mbind, state_bind, mret, state_ret.
  by destruct (Redis.hset _ _ _ s).
Qed.

(** X13: after [set] without ttl, [get] of the key returns the value
    (nothing for an empty value), [exists] answers true, the other keys read
    as before and the cache has one more entry if the key is new. *)
Theorem cache_set_then_get c key value s :
  let s' := (RedisCache.set c key value None s).2 in
  (RedisCache.get c key s').1
    = (if bool_decide (value = EmptyString) then None else Some value) ∧
  (RedisCache.exists_ c key s').1 = true ∧
  (∀ key', key' ≠ key → (RedisCache.get c key' s').1 = (RedisCache.get c key' s).1) ∧
  (RedisCache.size c s').1
    = ((RedisCache.size c s).1 + if (RedisCache.exists_ c key s).1 then 0 else 1)%Z.
Proof.
  intros s'. subst s'. rewrite cache_set_plain. cbn [snd].
  destruct (hset_view (RedisCache.cache_name c) key value s) as (Hg & _ & _).
  rewrite !cache_get_value.
  unfold RedisCache.exists_, RedisCache.size, Redis.hexists, Redis.hlen, gets.
  cbn [fst]. rewrite Hg, lookup_insert_eq.
  split; [done|]. split; [by rewrite bool_decide_eq_true_2|]. split.
  - intros key' Hne. rewrite !cache_get_value. cbn [fst].
    by rewrite Hg, lookup_insert_ne.
  - case_bool_decide as Hin.
    + destruct Hin as [v Hv]. erewrite map_size_insert_Some by done. lia.
    + apply eq_None_not_Some in Hin. rewrite map_size_insert_None by done. lia.
Qed.

(** X14: a document stored with [set_json] is read back by [get_json],
    provided the codec round-trips it and does not serialize it to the empty
    string. *)
Theorem cache_json_round_trip {J} `{!Json J} c key (document : J) s :
  loads (dumps document) = Some document →
  dumps document ≠ EmptyString →
  (RedisCache.get_json c key (RedisCache.set_json c key document None s).2).1
  = Ok (Some document).
Proof.
  intros Hrt Hne. unfold RedisCache.set_json, RedisCache.get_json.
  rewrite cache_set_plain. unfold mbind, state_bind, mret, state_ret. cbn [snd].
  rewrite cache_get_value.
  destruct (hset_view (RedisCache.cache_name c) key (dumps document) s) as (Hg & _ & _).
  rewrite Hg, lookup_insert_eq. rewrite bool_decide_eq_false_2 by done.
  cbn [fst]. by rewrite Hrt.
Qed.

Lemma hfind_tick (k : string) (dt : Z) s :
  Redis.hfind k (Redis.tick dt s)
  = match Redis.hfind k s with
    | Some h =>
        match Redis.deadline h with
        | Some d => if bool_decide (d ≤ Redis.clock s + Z.max 0 dt)%Z then None else Some h
        | None => Some h
        end
    | None => None
    end.
Proof.
  unfold Redis.hfind, Redis.tick. simpl.
  destruct (Redis.hashes s !! k) as [h|]; [|done].
  case_bool_decide; [done|].
  destruct (Redis.deadline h) as [d|] eqn:Hd; [|by rewrite Hd].
  repeat case_bool_decide; rewrite ?Hd; try done; try lia.
  all: repeat case_bool_decide; try done; lia.
Qed.

Lemma cache_set_ttl c key value (ttl : Z) s :
  (0 < ttl)%Z →
  let s1 := (RedisCache.set c key value (Some ttl) s).2 in
  Redis.hgetall (RedisCache.cache_name c) s1
    = <[key := value]> (Redis.hgetall (RedisCache.cache_name c) s) ∧
  Redis.httl (RedisCache.cache_name c) s1 = Some (Redis.clock s + ttl)%Z ∧
  Redis.clock s1 = Redis.clock s.
Proof.
  intros Httl. unfold RedisCache.set. unfold mbind, state_bind, mret, state_ret.
  pose proof (hset_view (RedisCache.cache_name c) key value s) as (Hg & Ht & Hc).
  destruct (Redis.hset _ _ _ s) as [r s0]. cbn [snd] in *.
  rewrite bool_decide_eq_false_2 by lia.
  pose proof (expire_view (RedisCache.cache_name c) ttl s0) as He.
  destruct (Redis.expire _ ttl s0) as [e s1]. cbn [snd].
  destruct He as (Hc1 & He).
  rewrite bool_decide_eq_false_2 in He by (rewrite Hg; apply insert_non_empty).
  rewrite bool_decide_eq_true_2 in He by done.
  destruct He as (_ & -> & ->). rewrite Hg, Hc. split; [done|]. split; [done|]. congruence.
Qed.

(** X15: a ttl given to one [set] is put on the whole cache: until it has
    elapsed the cache reads as written, and once it has elapsed every key of
    the cache is gone, also the keys stored without a ttl. *)
Theorem cache_ttl_expires_whole_cache c key value (ttl dt : Z) s :
  (0 < ttl)%Z →
  let s1 := (RedisCache.set c key value (Some ttl) s).2 in
  let s2 := Redis.tick dt s1 in
  (RedisCache.get_all c s1).1 = <[key := value]> (RedisCache.get_all c s).1 ∧
  ((dt < ttl)%Z → (RedisCache.get_all c s2).1 = (RedisCache.get_all c s1).1) ∧
  ((ttl ≤ dt)%Z →
     (RedisCache.get_all c s2).1 = ∅ ∧ (RedisCache.size c s2).1 = 0%Z ∧
     ∀ key', (RedisCache.get c key' s2).1 = None).
Proof.
  intros Httl s1 s2. destruct (cache_set_ttl c key value ttl s Httl) as (Hg & Ht & Hc).
  fold s1 in Hg, Ht, Hc.
  unfold RedisCache.get_all, RedisCache.size, Redis.hlen, gets. cbn [fst].
  split; [done|].
  assert (Hf : Redis.hfind (RedisCache.cache_name c) s2
               = if bool_decide (ttl ≤ Z.max 0 dt)%Z then None
                 else Redis.hfind (RedisCache.cache_name c) s1).
  { subst s2. rewrite hfind_tick. unfold Redis.httl in Ht.
    destruct (Redis.hfind (RedisCache.cache_name c) s1) as [h|]; [|done].
    simpl in Ht. rewrite Ht, Hc.
    repeat case_bool_decide; try done; lia. }
  split; intros Hdt.
  - unfold Redis.hgetall. rewrite Hf. by rewrite bool_decide_eq_false_2 by lia.
  - rewrite bool_decide_eq_true_2 in Hf by lia.
    assert (He : Redis.hgetall (RedisCache.cache_name c) s2 = ∅) by (by apply hgetall_empty).
    rewrite He. split; [done|]. split; [done|].
    intros key'. rewrite cache_get_value. cbn [fst]. by rewrite He, lookup_empty.
Qed.

(** X16: [set_batch] of an empty mapping changes nothing; otherwise
    [get_all] returns the mapping laid over what was cached, and every
    non-empty value of the mapping is read back by [get]. *)
Theorem cache_set_batch_then_get_all c (mapping : gmap string string) s :
  let s' := (RedisCache.set_batch c mapping None s).2 in
  (mapping = ∅ → s' = s) ∧
  (RedisCache.get_all c s').1 = mapping ∪ (RedisCache.get_all c s).1 ∧
  ∀ key value, mapping !! key = Some value → value ≠ EmptyString →
    (RedisCache.get c key s').1 = Some value.
Proof.
  intros s'. subst s'. unfold RedisCache.set_batch.
  destruct (decide (mapping = ∅)) as [->|Hne].
  - rewrite bool_decide_eq_true_2 by done. simpl.
    split; [done|]. split; [by rewrite (left_id_L ∅ (∪))|].
    intros key value Hk. by rewrite lookup_empty in Hk.
  - assert (Hs : (if bool_decide (mapping = ∅) then mret tt
                  else _ ← Redis.pipeline_execute
                             [Redis.hset_mapping (RedisCache.cache_name c) mapping];
                       mret tt) s
                 = (tt, hput (RedisCache.cache_name c)
                          (mapping ∪ Redis.hgetall (RedisCache.cache_name c) s)
                          (Redis.httl (RedisCache.cache_name c) s) s)).
    { by rewrite bool_decide_eq_false_2 by done. }
    rewrite Hs. clear Hs. cbn [snd]. split; [done|].
    assert (Hg : Redis.hgetall (RedisCache.cache_name c)
                   (hput (RedisCache.cache_name c)
                      (mapping ∪ Redis.hgetall (RedisCache.cache_name c) s)
                      (Redis.httl (RedisCache.cache_name c) s) s)
                 = mapping ∪ Redis.hgetall (RedisCache.cache_name c) s).
    { apply hgetall_hput_any. by apply httl_lt. }
    unfold RedisCache.get_all, gets. cbn [fst]. split; [done|].
    intros key value Hk Hv. rewrite cache_get_value. cbn [fst]. rewrite Hg.
    rewrite (lookup_union_Some_l _ _ _ _ Hk). by rewrite bool_decide_eq_false_2.
Qed.

(** X17: [delete] removes the key and nothing else: [get] and [exists] no
    longer find it, the other keys read as before, and deleting a key that
    is not cached changes nothing. *)
Theorem cache_delete_removes c key s :
  let s' := (RedisCache.delete c key s).2 in
  (RedisCache.get c key s').1 = None ∧
  (RedisCache.exists_ c key s').1 = false ∧
  (RedisCache.get_all c s').1 = base.delete key (RedisCache.get_all c s).1 ∧
  (∀ key', key' ≠ key → (RedisCache.get c key' s').1 = (RedisCache.get c key' s).1) ∧
  ((RedisCache.exists_ c key s).1 = false → s' = s).
Proof.
  intros s'.
  assert (Hg : Redis.hgetall (RedisCache.cache_name c) s'
               = base.delete key (Redis.hgetall (RedisCache.cache_name c) s)).
  { subst s'. unfold RedisCache.delete, Redis.hdel. unfold mbind, state_bind, mret, state_ret.
    destruct (Redis.hgetall (RedisCache.cache_name c) s !! key) as [v|] eqn:Hk; cbn [snd].
    - fold (hput (RedisCache.cache_name c)
              (base.delete key (Redis.hgetall (RedisCache.cache_name c) s))
              (Redis.httl (RedisCache.cache_name c) s) s).
      apply hgetall_hput_any. by apply httl_lt.
    - by rewrite delete_id. }
  rewrite !cache_get_value.
  unfold RedisCache.exists_, RedisCache.get_all, Redis.hexists, gets. cbn [fst].
  rewrite Hg, lookup_delete_eq. split; [done|].
  split; [by rewrite bool_decide_eq_false_2 by apply is_Some_None|].
  split; [done|]. split.
  - intros key' Hne. rewrite !cache_get_value. cbn [fst].
    by rewrite Hg, lookup_delete_ne.
  - intros Hex. apply bool_decide_eq_false in Hex. apply eq_None_not_Some in Hex.
    subst s'. unfold RedisCache.delete, Redis.hdel. unfold mbind, state_bind, mret, state_ret.
    by rewrite Hex.
Qed.
End cache.

(** The counter of the ingestion queue and the backpressure counter of the
    orchestrator are different keys. *)
Lemma init_keys_distinct (pipeline_config : PipelineConfig) :
  RedisQueue.counter_key (Pipeline.ingestion_queue (Pipeline.init pipeline_config))
  ≠ RedisBackpressure.key (Pipeline.backpressure (Pipeline.init pipeline_config))
      "ingestion".
Proof. cbv. discriminate. Qed.


(** ** More on [ingest_orders] *)

Section ingest_more.
Context `{PyValues} `{!Json Order}.
Context (pipeline_config : PipelineConfig).
Implicit Types (self : Pipeline.PipelineOrchestrator) (s : Redis.t)
  (orders : list Order) (window : gset string).

Lemma fresh_orders_kept window orders order :
  order ∈ fresh_orders window orders → order ∈ orders.
Proof.
  revert window. induction orders as [|o rest IH]; intros W; simpl; [done|].
  destruct (decide (order_id o ∈ W)).
  - intros ?%IH. by right.
  - intros [->|?%IH]%elem_of_cons; [by left|by right].
Qed.

Lemma fresh_orders_ids window orders :
  list_to_set (order_id <$> fresh_orders window orders)
  = (list_to_set (order_id <$> orders) ∖ window : gset string).
Proof.
  revert window. induction orders as [|o rest IH]; intros W; simpl; [set_solver|].
  destruct (decide (order_id o ∈ W)) as [Hin|Hin].
  - rewrite IH. set_solver.
  - simpl. rewrite IH. apply set_eq. intros x.
    destruct (decide (x = order_id o)); set_solver.
Qed.

Lemma fresh_orders_NoDup window orders :
  NoDup (order_id <$> fresh_orders window orders).
Proof.
  revert window. induction orders as [|o rest IH]; intros W; simpl; [constructor|].
  destruct (decide (order_id o ∈ W)) as [Hin|Hin]; [apply IH|].
  simpl. constructor; [|apply IH].
  intros Hin'. apply (elem_of_list_to_set (C:=gset string)) in Hin'.
  rewrite fresh_orders_ids in Hin'. set_solver.
Qed.

Lemma fresh_orders_sublist window orders :
  fresh_orders window orders `sublist_of` orders.
Proof.
  revert window. induction orders as [|o rest IH]; intros W; simpl; [done|].
  destruct (decide (order_id o ∈ W)).
  - by apply sublist_cons.
  - by apply sublist_skip.
Qed.

Lemma fresh_orders_length_le window orders :
  length (fresh_orders window orders) ≤ length orders.
Proof. apply sublist_length, fresh_orders_sublist. Qed.

Lemma fresh_orders_all_seen window orders :
  list_to_set (order_id <$> orders) ⊆ window → fresh_orders window orders = [].
Proof.
  intros Hsub. induction orders as [|o rest IH]; simpl; [done|].
  rewrite decide_True by set_solver. apply IH. set_solver.
Qed.

Lemma seen_frame (dd : RedisDeduplicator.t) s s' :
  Redis.hashes s' = Redis.hashes s → Redis.clock s' = Redis.clock s →
  seen dd s' = seen dd s ∧ horizon dd s' = horizon dd s.
Proof.
  intros Hh Hc. unfold seen, horizon, Redis.hgetall, Redis.httl, Redis.hfind.
  by rewrite Hh, Hc.
Qed.

(** The window and the clock after the loop of [ingest_orders]. *)
Lemma ingest_loop_seen self orders : ∀ stats (acc : list Order) s,
  (0 < RedisDeduplicator.ttl_seconds (Pipeline.deduplicator self))%Z →
  let s' := (Pipeline.ingest_loop self orders stats acc s).2 in
  dom (seen (Pipeline.deduplicator self) s')
    = dom (seen (Pipeline.deduplicator self) s) ∪ list_to_set (order_id <$> orders) ∧
  Redis.clock s' = Redis.clock s.
Proof.
  induction orders as [|o rest IH]; intros stats acc s Httl.
  - simpl. split; [set_solver|done].
  - cbn [Pipeline.ingest_loop]. unfold mbind, state_bind.
    pose proof (mark_seen_marks (Pipeline.deduplicator self) (order_id o) s Httl) as Hm.
    pose proof (mark_seen_view (Pipeline.deduplicator self) (order_id o) s) as Hv.
    destruct (RedisDeduplicator.mark_seen _ (order_id o) s) as [b s1].
    destruct Hm as [_ Hdom]. destruct Hv as (_ & Hc & _).
    destruct b;
      match goal with |- context [Pipeline.ingest_loop self rest ?st ?ac s1] =>
        destruct (IH st ac s1 Httl) as [Hd Hc1]
      end; cbv zeta; rewrite Hd, Hdom, Hc1, Hc; (split; [set_solver|done]).
Qed.

(** The server after an admitted [ingest_orders]. *)
Lemma ingest_orders_admitted_state self orders s :
  (0 < RedisDeduplicator.ttl_seconds (Pipeline.deduplicator self))%Z →
  (RedisBackpressure.should_throttle (Pipeline.backpressure self) "ingestion"
     (max_queue_depth pipeline_config) s).1 = false →
  RedisQueue.counter_key (Pipeline.ingestion_queue self)
    ≠ RedisBackpressure.key (Pipeline.backpressure self) "ingestion" →
  let s' := (Pipeline.ingest_orders pipeline_config self orders s).2 in
  let n := Z.of_nat (length (fresh_orders (dom (seen (Pipeline.deduplicator self) s)) orders)) in
  (RedisQueue.counter (Pipeline.ingestion_queue self) s').1
    = ((RedisQueue.counter (Pipeline.ingestion_queue self) s).1 + n)%Z ∧
  (RedisBackpressure.get_depth (Pipeline.backpressure self) "ingestion" s').1
    = ((RedisBackpressure.get_depth (Pipeline.backpressure self) "ingestion" s).1 + n)%Z ∧
  dom (seen (Pipeline.deduplicator self) s')
    = dom (seen (Pipeline.deduplicator self) s) ∪ list_to_set (order_id <$> orders) ∧
  Redis.clock s' = Redis.clock s.
Proof.
  intros Httl Hth Hk s' n. subst s' n.
  remember (Pipeline.ingest_orders pipeline_config self orders s) as r eqn:Hr.
  unfold Pipeline.ingest_orders in Hr.
  unfold mbind at 1 in Hr. unfold state_bind at 1 in Hr.
  rewrite should_throttle_value in *. cbn [fst snd] in *. rewrite Hth in Hr.
  unfold mbind at 1 in Hr. unfold state_bind at 1 in Hr.
  rewrite !counter_value, !get_depth_value. cbn [fst].
  match type of Hr with context [Pipeline.ingest_loop self orders ?st [] s] =>
    pose proof (ingest_loop_spec self orders st [] s Httl) as Hl;
    pose proof (ingest_loop_seen self orders st [] s Httl) as Hs;
    destruct (Pipeline.ingest_loop self orders st [] s) as [[stats new_orders] s1]
  end.
  cbn [snd] in Hs. destruct Hs as [Hdom Hclock].
  simpl in Hl. destruct Hl as (-> & _ & _ & _ & _ & Hlists & Hints & _).
  destruct (fresh_orders _ orders) as [|o fresh].
  - subst r. cbn [snd length mret state_ret]. unfold mret, state_ret. cbn [snd].
    rewrite Hints, Hdom, Hclock. repeat split; lia.
  - unfold mbind, state_bind, mret, state_ret in Hr.
    pose proof (push_batch_state (Pipeline.ingestion_queue self) (o :: fresh) s1
                  ltac:(done)) as Hp.
    destruct (RedisQueue.push_batch (Pipeline.ingestion_queue self) (o :: fresh) s1)
      as [[] s2]. cbn [snd] in Hp. subst s2.
    unfold RedisBackpressure.increment, Redis.incrby in Hr. cbn [fst snd] in Hr.
    subst r. cbn [snd].
    match goal with |- context [seen ?dd (Redis.set_ints ?i (Redis.set_ints ?j (Redis.set_lists ?l s1)))] =>
      destruct (seen_frame dd s1 (Redis.set_ints i (Redis.set_ints j (Redis.set_lists l s1))))
        as [-> _]; [done|done|]
    end.
    cbn [Redis.ints Redis.set_ints Redis.set_lists Redis.clock].
    assert (Hk' : RedisBackpressure.key (Pipeline.backpressure self) "ingestion"
                  ≠ RedisQueue.counter_key (Pipeline.ingestion_queue self)) by congruence.
    rewrite !(lookup_insert_ne _ _ _ _ Hk), !(lookup_insert_ne _ _ _ _ Hk'),
      !lookup_insert_eq.
    rewrite Hints, Hdom, Hclock. cbn [default]. repeat split; lia.
Qed.
End ingest_more.

Section ingest_theorems.
Context `{PyValues} `{!Json Order}.
Context (pipeline_config : PipelineConfig).
Implicit Types (s : Redis.t) (orders : list Order).

(** X18: an admitted [ingest_orders] accounts for every order of the wave:
    new + duplicates = total and queued = new; the depth of the ingestion
    queue, its counter and the backpressure counter all grow by queued. *)
Theorem ingest_accounting orders s :
  let self := Pipeline.init pipeline_config in
  (0 < dedup_window_seconds pipeline_config)%Z →
  (RedisBackpressure.should_throttle (Pipeline.backpressure self) "ingestion"
     (max_queue_depth pipeline_config) s).1 = false →
  let '(stats, s') := Pipeline.ingest_orders pipeline_config self orders s in
  Pipeline.total stats = Z.of_nat (length orders) ∧
  (Pipeline.new stats + Pipeline.duplicates stats)%Z = Pipeline.total stats ∧
  Pipeline.queued stats = Pipeline.new stats ∧
  (0 ≤ Pipeline.new stats)%Z ∧ (0 ≤ Pipeline.duplicates stats)%Z ∧
  (RedisQueue.size (Pipeline.ingestion_queue self) s').1
    = ((RedisQueue.size (Pipeline.ingestion_queue self) s).1 + Pipeline.queued stats)%Z ∧
  (RedisQueue.counter (Pipeline.ingestion_queue self) s').1
    = ((RedisQueue.counter (Pipeline.ingestion_queue self) s).1 + Pipeline.queued stats)%Z ∧
  (RedisBackpressure.get_depth (Pipeline.backpressure self) "ingestion" s').1
    = ((RedisBackpressure.get_depth (Pipeline.backpressure self) "ingestion" s).1
       + Pipeline.queued stats)%Z.
Proof.
  intros self Httl Hth.
  pose proof (ingest_orders_admitted pipeline_config self orders s Httl Hth) as Ha.
  pose proof (ingest_orders_admitted_state pipeline_config self orders s Httl Hth
                (init_keys_distinct pipeline_config)) as Hs.
  destruct (Pipeline.ingest_orders pipeline_config self orders s) as [stats s'].
  cbn [snd] in Hs. cbv zeta in Ha, Hs.
  destruct Ha as (Hl & Ht & Hn & Hq & Hnd). destruct Hs as (Hc & Hd & _ & _).
  rewrite !size_value, Hl, length_app, length_rev, length_fmap.
  pose proof (fresh_orders_length_le (dom (seen (Pipeline.deduplicator self) s)) orders).
  repeat split; lia.
Qed.

(** X19: an admitted [ingest_orders] puts on the queue, in one batch and in
    the order of the wave, one order for every order identifier of the wave
    that is not in the window, and nothing else: no identifier is queued
    twice and no identifier of the window is queued. *)
Theorem ingest_queues_first_occurrences (self : Pipeline.PipelineOrchestrator) orders s :
  let Q := RedisQueue.queue_name (Pipeline.ingestion_queue self) in
  let window := dom (seen (Pipeline.deduplicator self) s) in
  (0 < RedisDeduplicator.ttl_seconds (Pipeline.deduplicator self))%Z →
  (RedisBackpressure.should_throttle (Pipeline.backpressure self) "ingestion"
     (max_queue_depth pipeline_config) s).1 = false →
  ∃ new_orders : list Order,
    Redis.lrange Q (Pipeline.ingest_orders pipeline_config self orders s).2
      = rev (dumps <$> new_orders) ++ Redis.lrange Q s ∧
    NoDup (order_id <$> new_orders) ∧
    new_orders `sublist_of` orders ∧
    (∀ order, order ∈ new_orders → order_id order ∉ window) ∧
    (∀ order, order ∈ orders → order_id order ∉ window →
       order_id order ∈ order_id <$> new_orders).
Proof.
  intros Q window Httl Hth.
  pose proof (ingest_orders_admitted pipeline_config self orders s Httl Hth) as Ha.
  destruct (Pipeline.ingest_orders pipeline_config self orders s) as [stats s'].
  cbv zeta in Ha. destruct Ha as (Hl & _).
  exists (fresh_orders window orders). split; [done|].
  split; [apply fresh_orders_NoDup|]. split; [apply fresh_orders_sublist|].
  split; [intros order; apply fresh_orders_not_seen|].
  intros order Hin Hnw.
  apply (elem_of_list_to_set (C:=gset string)). rewrite fresh_orders_ids.
  apply elem_of_difference. split; [|done].
  apply elem_of_list_to_set. by apply list_elem_of_fmap_2.
Qed.

(** X20: a wave that has been admitted once is not queued a second time:
    the next [ingest_orders] of the same wave (before the window expires)
    reports no new order, queues nothing and leaves the queue as it is; when
    it is not throttled it counts every order as a duplicate. *)
Theorem ingest_twice_queues_once orders s :
  let self := Pipeline.init pipeline_config in
  let Q := RedisQueue.queue_name (Pipeline.ingestion_queue self) in
  (0 < dedup_window_seconds pipeline_config)%Z →
  (RedisBackpressure.should_throttle (Pipeline.backpressure self) "ingestion"
     (max_queue_depth pipeline_config) s).1 = false →
  let s1 := (Pipeline.ingest_orders pipeline_config self orders s).2 in
  let '(stats, s2) := Pipeline.ingest_orders pipeline_config self orders s1 in
  Pipeline.new stats = 0%Z ∧ Pipeline.queued stats = 0%Z ∧
  Redis.lrange Q s2 = Redis.lrange Q s1 ∧
  ((RedisBackpressure.should_throttle (Pipeline.backpressure self) "ingestion"
      (max_queue_depth pipeline_config) s1).1 = false →
   Pipeline.duplicates stats = Z.of_nat (length orders)).
Proof.
  intros self Q Httl Hth s1.
  pose proof (ingest_orders_admitted_state pipeline_config self orders s Httl Hth
                (init_keys_distinct pipeline_config)) as Hs.
  fold s1 in Hs. cbv zeta in Hs. destruct Hs as (_ & _ & Hdom & _).
  destruct (RedisBackpressure.should_throttle (Pipeline.backpressure self)
              "ingestion" (max_queue_depth pipeline_config) s1).1 eqn:Hth1.
  - unfold Pipeline.ingest_orders. unfold mbind, state_bind.
    rewrite should_throttle_value in *. cbn [fst snd] in *. rewrite Hth1.
    by cbn.
  - pose proof (ingest_orders_admitted pipeline_config self orders s1 Httl Hth1) as Ha.
    destruct (Pipeline.ingest_orders pipeline_config self orders s1) as [stats s2].
    cbv zeta in Ha. rewrite fresh_orders_all_seen in Ha by (rewrite Hdom; set_solver).
    simpl in Ha. destruct Ha as (Hl & Ht & Hn & Hq & Hnd).
    repeat split; try done. intros _. lia.
Qed.
End ingest_theorems.

(** ** More on [process_batch] *)

Section process_more.
Context `{PyValues} `{!Json Order} `{!Json Event} `{!Polars}.
Implicit Types (self : Pipeline.PipelineOrchestrator) (s : Redis.t)
  (stats : Pipeline.BatchStats).

(** [pop] touches the list, the counter of the queue and the clock only. *)
Lemma pop_frame (q : RedisQueue.t) (timeout : Z) s :
  let s' := (RedisQueue.pop (Job:=Order) q timeout s).2 in
  Redis.hashes s' = Redis.hashes s ∧ Redis.channel_log s' = Redis.channel_log s ∧
  ∀ key, key ≠ RedisQueue.counter_key q → Redis.ints s' !! key = Redis.ints s !! key.
Proof.
  unfold RedisQueue.pop, Redis.brpop. unfold mbind, state_bind, mret, state_ret.
  destruct (last (Redis.lrange (RedisQueue.queue_name q) s)); cbn [snd]; [|done].
  unfold Redis.decr, Redis.decrby, Redis.incrby. cbn.
  split; [done|]. split; [done|]. intros key Hk. by rewrite lookup_insert_ne.
Qed.

(** When every entry decodes, the draining loop takes the oldest entries, as
    many as asked for or as there are. *)
Lemma pull_batch_drains self (n : nat) : ∀ (acc : list Order) stats s,
  (∀ v, v ∈ Redis.lrange (RedisQueue.queue_name (Pipeline.ingestion_queue self)) s → is_Some (loads (A:=Order) v)) →
  ∃ orders_batch stats' s',
    Pipeline.pull_batch self n acc stats s = (Ok (orders_batch, stats'), s') ∧
    length orders_batch = length acc + n `min` length (Redis.lrange (RedisQueue.queue_name (Pipeline.ingestion_queue self)) s) ∧
    Redis.lrange (RedisQueue.queue_name (Pipeline.ingestion_queue self)) s' = take (length (Redis.lrange (RedisQueue.queue_name (Pipeline.ingestion_queue self)) s) - n) (Redis.lrange (RedisQueue.queue_name (Pipeline.ingestion_queue self)) s) ∧
    Redis.hashes s' = Redis.hashes s ∧ Redis.channel_log s' = Redis.channel_log s ∧
    ∀ key, key ≠ RedisQueue.counter_key (Pipeline.ingestion_queue self) →
           Redis.ints s' !! key = Redis.ints s !! key.
Proof.
  set (Q := RedisQueue.queue_name (Pipeline.ingestion_queue self)) in *.
  induction n as [|n IH]; intros acc stats s Hdec.
  - exists acc, stats, s. simpl. rewrite Nat.sub_0_r, firstn_all.
    repeat split; try done; lia.
  - cbn [Pipeline.pull_batch]. unfold mbind, state_bind.
    destruct (decide (Redis.lrange Q s = [])) as [Hl|Hl].
    + subst Q. rewrite (pop_nil _ _ _ Hl). exists acc, stats, (Redis.tick 1 s).
      unfold mret, state_ret.
      assert (Redis.lrange (RedisQueue.queue_name (Pipeline.ingestion_queue self))
                (Redis.tick 1 s)
              = Redis.lrange (RedisQueue.queue_name (Pipeline.ingestion_queue self)) s)
        as -> by done.
      rewrite Hl. simpl. repeat split; try done; lia.
    + subst Q. destruct (exists_last Hl) as (l & v & Hv).
      destruct (pop_snoc (Job:=Order) (Pipeline.ingestion_queue self) 1 _ _ _ Hv)
        as [Hr Hs].
      pose proof (pop_frame (Pipeline.ingestion_queue self) 1 s) as Hf.
      destruct (RedisQueue.pop (Pipeline.ingestion_queue self) 1 s) as [r s1].
      cbn [fst snd] in Hr, Hs, Hf. destruct Hf as (Hh & Hc & Hi).
      subst r. unfold decode.
      destruct (Hdec v) as [order Ho]; [rewrite Hv; set_solver|].
      rewrite Ho.
      match goal with |- context [Pipeline.pull_batch self n ?ac ?st s1] =>
        destruct (IH ac st s1) as (batch & stats' & s' & Hp & Hlen & Hlr & Hh' & Hc' & Hi')
      end.
      { intros v' Hin. apply Hdec. rewrite Hv.
        rewrite Hs in Hin. set_solver. }
      exists batch, stats', s'. split; [done|].
      rewrite Hs in Hlen, Hlr. rewrite Hv. rewrite !length_app in *. cbn [length] in *.
      split; [lia|].
      split.
      { rewrite Hlr. replace (length l + 1 - S n) with (length l - n) by lia.
        by rewrite take_app_le by lia. }
      split; [congruence|]. split; [congruence|].
      intros key Hk. rewrite Hi', Hi; done.
Qed.

(** What one [process_batch] does to both stores, when every queued entry
    decodes. *)
Lemma process_batch_effect self (batch_size : Z) (env : Pipeline.environment)
    (w : Pipeline.World) :
  (∀ v, v ∈ Redis.lrange (RedisQueue.queue_name (Pipeline.ingestion_queue self))
              (Pipeline.redis w) → is_Some (loads (A:=Order) v)) →
  RedisQueue.counter_key (Pipeline.ingestion_queue self)
    ≠ RedisBackpressure.key (Pipeline.backpressure self) "ingestion" →
  ∃ k : nat,
    k = Z.to_nat batch_size
          `min` length (Redis.lrange (RedisQueue.queue_name (Pipeline.ingestion_queue self))
                          (Pipeline.redis w)) ∧
    let '(r, w') := Pipeline.process_batch self batch_size env w in
    Redis.lrange (RedisQueue.queue_name (Pipeline.ingestion_queue self)) (Pipeline.redis w')
      = take (length (Redis.lrange (RedisQueue.queue_name (Pipeline.ingestion_queue self))
                        (Pipeline.redis w)) - k)
             (Redis.lrange (RedisQueue.queue_name (Pipeline.ingestion_queue self))
                (Pipeline.redis w)) ∧
    (RedisBackpressure.get_depth (Pipeline.backpressure self) "ingestion"
       (Pipeline.redis w')).1
      = ((RedisBackpressure.get_depth (Pipeline.backpressure self) "ingestion"
            (Pipeline.redis w)).1 - Z.of_nat k)%Z ∧
    Redis.hashes (Pipeline.redis w') = Redis.hashes (Pipeline.redis w) ∧
    match r with
    | Ok stats =>
        Pipeline.processed stats = Z.of_nat k ∧
        ∃ rows : list EnrichedRow,
          Pipeline.staged stats = Z.of_nat (length rows) ∧
          Pipeline.postgres w'
            = Postgres.Db (Postgres.orders_staging (Pipeline.postgres w) ++ rows)
                (Postgres.orders (Pipeline.postgres w))
                (Postgres.refreshes (Pipeline.postgres w)) ∧
          Redis.channel_log (Pipeline.redis w')
            = match rows with
              | [] => []
              | _ =>
                  if Pipeline.publish_ok env
                  then [("pipeline:events",
                         dumps {| event := "batch_staged";
                                  count := Z.of_nat (length rows);
                                  timestamp := isoformat (Redis.clock (Pipeline.redis w')) |})]
                  else []
              end ++ Redis.channel_log (Pipeline.redis w) ∧
          (Pipeline.staged stats + Pipeline.errors stats
           = Pipeline.processed stats
             + if Pipeline.publish_ok env then 0 else Pipeline.staged stats)%Z
    | Raise e =>
        Pipeline.postgres w' = Pipeline.postgres w ∧
        Redis.channel_log (Pipeline.redis w') = Redis.channel_log (Pipeline.redis w) ∧
        (Postgres.connect_ok (Pipeline.database env) = false ∨
         (∃ orders_batch, length orders_batch = k ∧ orders_frame orders_batch = Raise e) ∨
         (∃ enriched_rows, enriched_frame enriched_rows = Raise e))
    end.
Proof.
  intros Hdec Hk. destruct w as [rd pg]. cbn [Pipeline.redis Pipeline.postgres] in *.
  eexists. split; [reflexivity|].
  unfold Pipeline.process_batch.
  unfold mbind at 1. unfold state_bind at 1. unfold Pipeline.on_redis at 1.
  cbn [Pipeline.redis Pipeline.postgres].
  match goal with |- context [Pipeline.pull_batch self ?n [] ?st rd] =>
    destruct (pull_batch_drains self n [] st rd Hdec)
      as (orders_batch & stats & s1 & Hp & Hlen & Hlr & Hh & Hc & Hi);
    pose proof (pull_batch_spec self n [] st rd) as Hsp;
    rewrite Hp in Hsp |- *
  end.
  cbn [Pipeline.processed Pipeline.enriched Pipeline.staged Pipeline.errors length] in Hsp.
  destruct Hsp as (Hproc & Henr & Hst & Herr). cbn [length] in Hlen.
  assert (Htake : ∀ (n : nat) (l : list string),
            take (length l - n `min` length l) l = take (length l - n) l).
  { intros n l. f_equal. lia. }
  assert (Hpg : Postgres.Db (Postgres.orders_staging pg ++ []) (Postgres.orders pg)
                  (Postgres.refreshes pg) = pg).
  { rewrite app_nil_r. by destruct pg. }
  assert (Hbp : ∀ s, Redis.ints s !! RedisBackpressure.key (Pipeline.backpressure self) "ingestion"
                    = Redis.ints rd !! RedisBackpressure.key (Pipeline.backpressure self) "ingestion" →
            (RedisBackpressure.get_depth (Pipeline.backpressure self) "ingestion" s).1
            = (RedisBackpressure.get_depth (Pipeline.backpressure self) "ingestion" rd).1).
  { intros s Hs. rewrite !get_depth_value. cbn [fst]. by rewrite Hs. }
  destruct orders_batch as [|o batch].
  { cbn [mret state_ret]. unfold mret, state_ret.
    cbn [Pipeline.redis Pipeline.postgres length] in *.
    rewrite Htake, Hlr, Hh. rewrite (Hbp s1) by (apply Hi; congruence).
    repeat split; try done; try lia.
    exists []. rewrite Hpg. cbn [length app]. repeat split; try done.
    destruct (Pipeline.publish_ok env); lia. }
  unfold mbind at 1. unfold state_bind at 1. unfold Pipeline.on_redis at 1.
  cbn [Pipeline.redis Pipeline.postgres].
  assert (Hd : (RedisBackpressure.get_depth (Pipeline.backpressure self) "ingestion"
                  (RedisBackpressure.decrement (Pipeline.backpressure self) "ingestion"
                     (Z.of_nat (length (o :: batch))) s1).2).1
               = ((RedisBackpressure.get_depth (Pipeline.backpressure self) "ingestion" rd).1
                  - Z.of_nat (length (o :: batch)))%Z).
  { rewrite decrement_depth. rewrite (Hbp s1) by (apply Hi; congruence). done. }
  assert (Hframe : let s2 := (RedisBackpressure.decrement (Pipeline.backpressure self)
                                "ingestion" (Z.of_nat (length (o :: batch))) s1).2 in
            Redis.lists s2 = Redis.lists s1 ∧ Redis.hashes s2 = Redis.hashes s1 ∧
            Redis.channel_log s2 = Redis.channel_log s1 ∧ Redis.clock s2 = Redis.clock s1)
    by done.
  destruct (RedisBackpressure.decrement _ _ _ s1) as [d s2].
  cbn [snd] in Hd, Hframe. destruct Hframe as (Hl2 & Hh2 & Hc2 & Hk2).
  assert (Hlr2 : Redis.lrange (RedisQueue.queue_name (Pipeline.ingestion_queue self)) s2
                 = Redis.lrange (RedisQueue.queue_name (Pipeline.ingestion_queue self)) s1)
    by (unfold Redis.lrange; by rewrite Hl2).
  assert (Hkk : Z.of_nat (length (o :: batch))
                = Z.of_nat (Z.to_nat batch_size `min` length
                     (Redis.lrange (RedisQueue.queue_name (Pipeline.ingestion_queue self)) rd)))
    by (rewrite Hlen; done).
  destruct (orders_frame (o :: batch)) as [df|e] eqn:Hdf.
  2:{ unfold mret, state_ret. cbn [Pipeline.redis Pipeline.postgres].
      rewrite Htake, Hlr2, Hlr, Hh2, Hh, Hc2, Hc, Hd, Hkk. repeat split; try done.
      right; left. exists (o :: batch). split; [|done]. by rewrite Hlen. }
  pose proof (orders_frame_rows _ _ Hdf) as Hdflen.
  unfold mbind at 1. unfold state_bind at 1. unfold Pipeline.on_redis at 1.
  cbn [Pipeline.redis Pipeline.postgres].
  pose proof (enrich_loop_spec self df [] stats s2) as He.
  destruct (Pipeline.enrich_loop self df [] stats s2) as [[enriched_rows stats'] s3].
  destruct He as (-> & Hproc' & Hst' & Henr' & Hsum).
  cbn [length] in Henr', Hlen, Hproc.
  destruct enriched_rows as [|r rows].
  { unfold mret, state_ret. cbn [Pipeline.redis Pipeline.postgres].
    rewrite Htake, Hlr2, Hlr, Hh2, Hh, Hc2, Hc, Hd, Hkk.
    repeat split; try done; try lia.
    exists []. rewrite Hpg. cbn [length app] in *. repeat split; try done; try lia.
    destruct (Pipeline.publish_ok env); lia. }
  destruct (enriched_frame (r :: rows)) as [enriched_df|e] eqn:Hedf.
  2:{ unfold mret, state_ret. cbn [Pipeline.redis Pipeline.postgres].
      rewrite Htake, Hlr2, Hlr, Hh2, Hh, Hc2, Hc, Hd, Hkk. repeat split; try done.
      right; right. by exists (r :: rows). }
  pose proof (enriched_frame_rows _ _ Hedf) as Hedflen. cbn [length] in Hedflen.
  unfold mbind at 1. unfold state_bind at 1. unfold gets at 1.
  cbn [Pipeline.redis Pipeline.postgres].
  unfold Postgres.connect. destruct (Postgres.connect_ok (Pipeline.database env)).
  2:{ unfold mret, state_ret. cbn [Pipeline.redis Pipeline.postgres].
      rewrite Htake, Hlr2, Hlr, Hh2, Hh, Hc2, Hc, Hd, Hkk. repeat split; try done.
      by left. }
  assert (Hlr3 : ∀ l, Redis.lrange (RedisQueue.queue_name (Pipeline.ingestion_queue self))
                        (Redis.set_channel_log l s2)
                      = Redis.lrange (RedisQueue.queue_name (Pipeline.ingestion_queue self)) s2)
    by done.
  assert (Hd3 : ∀ l, (RedisBackpressure.get_depth (Pipeline.backpressure self) "ingestion"
                        (Redis.set_channel_log l s2)).1
                     = (RedisBackpressure.get_depth (Pipeline.backpressure self)
                          "ingestion" s2).1)
    by (intros l; by rewrite !get_depth_value).
  unfold Postgres.bulk_insert. destruct (Postgres.copy_ok (Pipeline.database env)).
  - unfold RedisPubSub.publish. destruct (Pipeline.publish_ok env).
    + unfold mbind, state_bind, mret, state_ret, modify, Pipeline.on_redis,
        Redis.publish, Redis.time, gets, modify, Postgres.close, Postgres.commit.
      cbn [Pipeline.redis Pipeline.postgres fst snd Postgres.committed Postgres.working
           Redis.set_channel_log Redis.clock Redis.hashes Redis.channel_log Redis.lists
           Redis.ints Pipeline.processed Pipeline.staged Pipeline.errors Pipeline.enriched].
      rewrite Hlr3, Hd3, Htake, Hlr2, Hlr, Hh2, Hh, Hc2, Hc, Hd, Hkk.
      repeat split; try done; try lia.
      exists enriched_df. destruct enriched_df; [cbn [length] in Hedflen; lia|].
      repeat split; try done. cbn [length] in *. lia.
    + unfold mbind, state_bind, mret, state_ret, modify, Pipeline.on_redis,
        Redis.time, gets, modify, Postgres.close, Postgres.commit.
      cbn [Pipeline.redis Pipeline.postgres fst snd Postgres.committed Postgres.working
           Redis.clock Redis.hashes Redis.channel_log Redis.lists
           Redis.ints Pipeline.processed Pipeline.staged Pipeline.errors Pipeline.enriched].
      rewrite Htake, Hlr2, Hlr, Hh2, Hh, Hc2, Hc, Hd, Hkk.
      repeat split; try done; try lia.
      exists enriched_df. destruct enriched_df; [cbn [length] in Hedflen; lia|].
      repeat split; try done. cbn [length] in *. lia.
  - unfold mbind, state_bind, mret, state_ret, modify, Postgres.close.
    cbn [Pipeline.redis Pipeline.postgres fst snd Postgres.committed
         Pipeline.processed Pipeline.staged Pipeline.errors Pipeline.enriched].
    rewrite Htake, Hlr2, Hlr, Hh2, Hh, Hc2, Hc, Hd, Hkk.
    repeat split; try done; try lia.
    exists []. rewrite Hpg. cbn [length app] in *. repeat split; try done; try lia.
    destruct (Pipeline.publish_ok env); lia.
Qed.
End process_more.

Section process_theorems.
Context `{PyValues} `{!Json Order} `{!Json Event} `{!Polars}.
Context (pipeline_config : PipelineConfig).
Implicit Types (w : Pipeline.World).

(** X21: a [process_batch] that has nothing to do returns all-zero
    statistics: with a batch size of zero or less nothing at all changes, and
    on an empty queue only the clock moves, by the one second the [pop]
    waited. *)
Theorem process_batch_idle (self : Pipeline.PipelineOrchestrator) (batch_size : Z)
    (env : Pipeline.environment) w :
  let zero := {| Pipeline.processed := 0; Pipeline.enriched := 0;
                 Pipeline.staged := 0; Pipeline.errors := 0 |} in
  ((batch_size ≤ 0)%Z → Pipeline.process_batch self batch_size env w = (Ok zero, w)) ∧
  ((0 < batch_size)%Z →
   Redis.lrange (RedisQueue.queue_name (Pipeline.ingestion_queue self)) (Pipeline.redis w) = [] →
   Pipeline.process_batch self batch_size env w
   = (Ok zero, {| Pipeline.redis := Redis.tick 1 (Pipeline.redis w);
                  Pipeline.postgres := Pipeline.postgres w |})).
Proof.
  intros zero. destruct w as [rd pg]. split.
  - intros Hb. unfold Pipeline.process_batch.
    replace (Z.to_nat batch_size) with 0 by lia. done.
  - intros Hb Hl. unfold Pipeline.process_batch.
    destruct (Z.to_nat batch_size) as [|n] eqn:Hn; [lia|].
    unfold mbind at 1. unfold state_bind at 1. unfold Pipeline.on_redis at 1.
    cbn [Pipeline.pull_batch Pipeline.redis Pipeline.postgres].
    unfold mbind at 1. unfold state_bind at 1.
    by rewrite (pop_nil _ _ _ Hl).
Qed.


(** X23: when every queued entry decodes and [process_batch] returns its
    statistics, the staging table has grown by exactly the staged rows and
    the production table and the views are untouched.  One [batch_staged]
    event carrying the staged count has been published if rows were staged
    and the PUBLISH went through, none otherwise.  Staged plus errors is the
    processed count, except when the PUBLISH is refused after the bulk
    insert: the rows are then staged and committed, and counted once more
    as errors.  When the call raises, the database and the channel are as
    before. *)
Theorem process_batch_stages (batch_size : Z) (env : Pipeline.environment) w :
  let self := Pipeline.init pipeline_config in
  (∀ v, v ∈ Redis.lrange (RedisQueue.queue_name (Pipeline.ingestion_queue self))
              (Pipeline.redis w) → is_Some (loads (A:=Order) v)) →
  let '(r, w') := Pipeline.process_batch self batch_size env w in
  match r with
  | Ok stats =>
      ∃ rows : list EnrichedRow,
        Pipeline.staged stats = Z.of_nat (length rows) ∧
        Postgres.orders_staging (Pipeline.postgres w')
          = Postgres.orders_staging (Pipeline.postgres w) ++ rows ∧
        Postgres.orders (Pipeline.postgres w') = Postgres.orders (Pipeline.postgres w) ∧
        Postgres.refreshes (Pipeline.postgres w') = Postgres.refreshes (Pipeline.postgres w) ∧
        Redis.channel_log (Pipeline.redis w')
          = (if bool_decide (Pipeline.staged stats = 0%Z) || negb (Pipeline.publish_ok env)
             then []
             else [("pipeline:events",
                    dumps {| event := "batch_staged"; count := Pipeline.staged stats;
                             timestamp := isoformat (Redis.clock (Pipeline.redis w')) |})])
            ++ Redis.channel_log (Pipeline.redis w) ∧
        (Pipeline.staged stats + Pipeline.errors stats
         = Pipeline.processed stats
           + if Pipeline.publish_ok env then 0 else Pipeline.staged stats)%Z
  | Raise _ =>
      Pipeline.postgres w' = Pipeline.postgres w ∧
      Redis.channel_log (Pipeline.redis w') = Redis.channel_log (Pipeline.redis w)
  end.
Proof.
  intros self Hdec.
  destruct (process_batch_effect self batch_size env w Hdec
              (init_keys_distinct pipeline_config)) as (k & _ & He).
  destruct (Pipeline.process_batch self batch_size env w) as [r w'].
  destruct He as (_ & _ & _ & Hr). destruct r as [stats|e].
  2:{ destruct Hr as (Hpg & Hlog & _). by split. }
  destruct Hr as (_ & rows & Hst & Hpg & Hlog & Hacc).
  exists rows. rewrite Hpg, Hlog, Hst. cbn [Postgres.orders_staging Postgres.orders
    Postgres.refreshes]. rewrite Hst in Hacc. repeat split; try done.
  destruct rows; [done|].
  rewrite bool_decide_eq_false_2 by (cbn [length]; lia).
  by destruct (Pipeline.publish_ok env).
Qed.
End process_theorems.

(** ** More on [promote_to_production] *)

Section promote_more.
Context `{PyValues} `{!Json Event}.
Context (validated : EnrichedRow → bool).
Implicit Types (self : Pipeline.PipelineOrchestrator) (w : Pipeline.World).

(** X25: a [promote_to_production] that raises has published nothing.  When
    it raises because the database fails (the connection is refused, the
    procedure fails, or the refresh of the views fails after rows were moved)
    the database and the server are exactly as they were: nothing is
    promoted.  When the database answers, the exception is the one of the
    PUBLISH, which comes after the commit of the refresh: the call raises
    although the rows are promoted and the views refreshed. *)
Theorem promote_failure_rolls_back self (env : Pipeline.environment) w (e : string) :
  (Pipeline.promote_to_production validated self env w).1 = Raise e →
  let w' := (Pipeline.promote_to_production validated self env w).2 in
  let db := Pipeline.database env in
  Pipeline.redis w' = Pipeline.redis w ∧
  (Postgres.connect_ok db = false ∨ Postgres.promote_ok db = false ∨
   Postgres.refresh_ok db = false → w' = w) ∧
  (Postgres.connect_ok db = true → Postgres.promote_ok db = true →
   Postgres.refresh_ok db = true →
   Pipeline.publish_ok env = false ∧
   let promoted :=
     (Postgres.promote_staging_to_production validated (Pipeline.postgres w)).2 in
   Pipeline.postgres w'
     = Postgres.Db (Postgres.orders_staging promoted) (Postgres.orders promoted)
         (S (Postgres.refreshes promoted)) ∧
   Pipeline.postgres w' ≠ Pipeline.postgres w).
Proof.
  unfold Pipeline.promote_to_production, Postgres.connect,
    Postgres.promote_to_production, Postgres.promote_staging_to_production,
    Postgres.refresh_all, RedisPubSub.publish.
  destruct w as [rd pg]. run.
  destruct (Postgres.connect_ok (Pipeline.database env)); simpl;
    [|intros _; repeat split; done].
  destruct (Postgres.promote_ok (Pipeline.database env)); simpl;
    [|intros _; repeat split; done].
  case_bool_decide as Hpos; simpl; [|done].
  destruct (Postgres.refresh_ok (Pipeline.database env)); simpl;
    [|intros _; repeat split; done].
  destruct (Pipeline.publish_ok env); simpl; [done|]. intros _.
  split; [done|]. split; [intros [?|[?|?]]; done|]. intros _ _ _.
  split; [done|]. split; [done|].
  destruct pg as [staging production n]. simpl. intros Hpg.
  injection Hpg as _ _ Hn. lia.
Qed.
End promote_more.

(** ** The [clear] command *)

Section cli_clear.
Context (pipeline_config : PipelineConfig).
Implicit Types (s : Redis.t).

(** X26: [clear --all] empties both queues, the lookup cache and the
    deduplication window, but leaves the backpressure counter as it is: a
    producer that was throttled before the command is still throttled after
    it, although the ingestion queue is empty. *)
Theorem clear_all_keeps_backpressure (queues cache dedup : bool) s :
  let self := Pipeline.init pipeline_config in
  let s' := (Cli.clear pipeline_config true queues cache dedup s).2 in
  (RedisQueue.size (Pipeline.ingestion_queue self) s').1 = 0%Z ∧
  (RedisQueue.counter (Pipeline.ingestion_queue self) s').1 = 0%Z ∧
  (RedisQueue.size (Pipeline.processing_queue self) s').1 = 0%Z ∧
  (RedisCache.size (Pipeline.lookup_cache self) s').1 = 0%Z ∧
  (RedisDeduplicator.count_seen (Pipeline.deduplicator self) s').1 = 0%Z ∧
  (RedisBackpressure.get_depth (Pipeline.backpressure self) "ingestion" s').1
    = (RedisBackpressure.get_depth (Pipeline.backpressure self) "ingestion" s).1 ∧
  ∀ max_depth : Z,
    (RedisBackpressure.should_throttle (Pipeline.backpressure self) "ingestion" max_depth s').1
    = (RedisBackpressure.should_throttle (Pipeline.backpressure self) "ingestion" max_depth s).1.
Proof.
  intros self s'.
  assert (Hd : (RedisBackpressure.get_depth (Pipeline.backpressure self) "ingestion" s').1
               = (RedisBackpressure.get_depth (Pipeline.backpressure self) "ingestion" s).1).
  { rewrite !get_depth_value. cbn [fst]. subst s' self.
    unfold Cli.clear, RedisQueue.clear, RedisCache.clear, RedisDeduplicator.clear,
      Redis.delete. run.
    rewrite !lookup_delete_ne; [done|cbv; discriminate..]. }
  rewrite !size_value, counter_value, count_seen_value.
  unfold RedisCache.size, Redis.hlen, gets. cbn [fst].
  assert (Hl : Redis.lists s' !! RedisQueue.queue_name (Pipeline.ingestion_queue self) = None
               ∧ Redis.lists s' !! RedisQueue.queue_name (Pipeline.processing_queue self) = None
               ∧ Redis.ints s' !! RedisQueue.counter_key (Pipeline.ingestion_queue self) = None
               ∧ Redis.hashes s' !! RedisCache.cache_name (Pipeline.lookup_cache self) = None
               ∧ Redis.hashes s' !! RedisDeduplicator.window_name (Pipeline.deduplicator self) = None).
  { subst s' self.
    unfold Cli.clear, RedisQueue.clear, RedisCache.clear, RedisDeduplicator.clear,
      Redis.delete. run.
    repeat split; repeat (rewrite lookup_delete_eq || (rewrite lookup_delete_ne by (cbv; discriminate))); done. }
  destruct Hl as (Hl1 & Hl2 & Hi & Hh1 & Hh2).
  assert (Ht : ∀ max_depth : Z,
            (RedisBackpressure.should_throttle (Pipeline.backpressure self) "ingestion"
               max_depth s').1
            = (RedisBackpressure.should_throttle (Pipeline.backpressure self) "ingestion"
                 max_depth s).1).
  { intros max_depth. rewrite !should_throttle_value. cbn [fst]. by rewrite Hd. }
  unfold Redis.lrange, seen, Redis.hgetall, Redis.hfind.
  rewrite Hl1, Hl2, Hi, Hh1, Hh2. cbn [default length from_option]. rewrite dom_empty_L.
  repeat split; done.
Qed.
End cli_clear.

(** ** [initialize_lookup_cache] *)

Section warm_cache.
Context `{PyValues} `{!Json Pipeline.ProductInfo} `{!Json Pipeline.ZipInfo}.
Context (str_rate : float → string).
Implicit Types (self : Pipeline.PipelineOrchestrator) (s : Redis.t)
  (tables : Pipeline.LookupTables).

Lemma prefix_product_currency (a b : string) : "product:" +:+ a ≠ "currency:" +:+ b.
Proof. cbv [String.append]. discriminate. Qed.
Lemma prefix_product_zipcode (a b : string) : "product:" +:+ a ≠ "zipcode:" +:+ b.
Proof. cbv [String.append]. discriminate. Qed.
Lemma prefix_currency_zipcode (a b : string) : "currency:" +:+ a ≠ "zipcode:" +:+ b.
Proof. cbv [String.append]. discriminate. Qed.

(** The map after a run of insertions. *)
Lemma foldl_insert_lookup {Row} (entry : Row → string * string) (rows : list Row)
    (m : gmap string string) :
  let m' := foldl (λ acc row, <[(entry row).1 := (entry row).2]> acc) m rows in
  (∀ row, row ∈ rows →
     ∃ row', row' ∈ rows ∧ (entry row').1 = (entry row).1 ∧
             m' !! (entry row).1 = Some (entry row').2) ∧
  (∀ key, (∀ row, row ∈ rows → (entry row).1 ≠ key) → m' !! key = m !! key).
Proof.
  induction rows as [|r rows IH] using rev_ind; intros m'; subst m'.
  - split; [by intros ? ?%elem_of_nil|done].
  - rewrite foldl_app. simpl. destruct IH as [IH1 IH2]. split.
    + intros row Hin. destruct (decide ((entry r).1 = (entry row).1)) as [Heq|Hne].
      * exists r. rewrite <- Heq, lookup_insert_eq. set_solver.
      * apply elem_of_app in Hin as [Hin|Hin]; [|set_solver].
        destruct (IH1 row Hin) as (row' & Hin' & Hk & Hl).
        exists row'. rewrite lookup_insert_ne by done. set_solver.
    + intros key Hk. rewrite lookup_insert_ne by (apply Hk; set_solver).
      apply IH2. intros row Hin. apply Hk. set_solver.
Qed.

Lemma cache_rows_view {Row} (entry : Row → string * string) (cache : RedisCache.t)
    (rows : list Row) : ∀ s,
  Redis.hgetall (RedisCache.cache_name cache) (Pipeline.cache_rows entry cache rows s).2
  = foldl (λ acc row, <[(entry row).1 := (entry row).2]> acc)
      (Redis.hgetall (RedisCache.cache_name cache) s) rows.
Proof.
  induction rows as [|row rows IH]; intros s; [done|].
  cbn [Pipeline.cache_rows foldl]. unfold mbind, state_bind.
  rewrite cache_set_plain. rewrite IH.
  by destruct (hset_view (RedisCache.cache_name cache) (entry row).1 (entry row).2 s)
    as (-> & _ & _).
Qed.

(** The cache after a successful [initialize_lookup_cache]. *)
Lemma lookup_cache_filled self (env : Postgres.behaviour) tables s :
  Postgres.connect_ok env = true →
  let '(r, s') := Pipeline.initialize_lookup_cache str_rate self env tables s in
  let cached := Redis.hgetall (RedisCache.cache_name (Pipeline.lookup_cache self)) s' in
  r = Ok tt ∧
  (∀ row, row ∈ Pipeline.products tables →
     ∃ row', row' ∈ Pipeline.products tables ∧
       Pipeline.p_product_id row' = Pipeline.p_product_id row ∧
       cached !! ("product:" +:+ Pipeline.p_product_id row)
         = Some (Pipeline.product_entry row').2) ∧
  (∀ row, row ∈ Pipeline.currency_rates tables →
     ∃ row', row' ∈ Pipeline.currency_rates tables ∧
       Pipeline.c_currency_code row' = Pipeline.c_currency_code row ∧
       cached !! ("currency:" +:+ Pipeline.c_currency_code row)
         = Some (str_rate (Pipeline.c_rate_to_usd row'))) ∧
  (∀ row, row ∈ Pipeline.zip_codes tables →
     ∃ row', row' ∈ Pipeline.zip_codes tables ∧
       Pipeline.z_zip_code row' = Pipeline.z_zip_code row ∧
       cached !! ("zipcode:" +:+ Pipeline.z_zip_code row)
         = Some (Pipeline.zip_entry row').2).
Proof.
  intros Hok. unfold Pipeline.initialize_lookup_cache. rewrite Hok.
  unfold mbind, state_bind, mret, state_ret.
  pose proof (cache_rows_view Pipeline.product_entry (Pipeline.lookup_cache self)
                (Pipeline.products tables) s) as H1.
  destruct (Pipeline.cache_rows Pipeline.product_entry _ _ s) as [[] s1]. cbn [snd] in H1.
  pose proof (cache_rows_view (Pipeline.currency_entry str_rate) (Pipeline.lookup_cache self)
                (Pipeline.currency_rates tables) s1) as H2.
  destruct (Pipeline.cache_rows (Pipeline.currency_entry str_rate) _ _ s1) as [[] s2].
  cbn [snd] in H2.
  pose proof (cache_rows_view Pipeline.zip_entry (Pipeline.lookup_cache self)
                (Pipeline.zip_codes tables) s2) as H3.
  destruct (Pipeline.cache_rows Pipeline.zip_entry _ _ s2) as [[] s3]. cbn [snd] in H3.
  cbv zeta. split; [done|].
  destruct (foldl_insert_lookup Pipeline.product_entry (Pipeline.products tables)
              (Redis.hgetall (RedisCache.cache_name (Pipeline.lookup_cache self)) s))
    as [P1 _].
  destruct (foldl_insert_lookup (Pipeline.currency_entry str_rate)
              (Pipeline.currency_rates tables)
              (Redis.hgetall (RedisCache.cache_name (Pipeline.lookup_cache self)) s1))
    as [C1 C2].
  destruct (foldl_insert_lookup Pipeline.zip_entry (Pipeline.zip_codes tables)
              (Redis.hgetall (RedisCache.cache_name (Pipeline.lookup_cache self)) s2))
    as [Z1 Z2].
  rewrite <- H1 in P1. rewrite <- H2 in C1, C2. rewrite <- H3 in Z1, Z2.
  split; [|split].
  - intros row Hin. destruct (P1 row Hin) as (row' & Hin' & Hk & Hl).
    exists row'. split; [done|]. split.
    { cbn [Pipeline.product_entry fst] in Hk. by apply (inj (String.app _)) in Hk. }
    rewrite Z2, C2; [done|..]; intros r _; cbn [Pipeline.product_entry
      Pipeline.currency_entry Pipeline.zip_entry fst].
    + intros Heq. symmetry in Heq. by apply prefix_product_currency in Heq.
    + intros Heq. symmetry in Heq. by apply prefix_product_zipcode in Heq.
  - intros row Hin. destruct (C1 row Hin) as (row' & Hin' & Hk & Hl).
    exists row'. split; [done|]. split.
    { cbn [Pipeline.currency_entry fst] in Hk. by apply (inj (String.app _)) in Hk. }
    rewrite Z2; [done|]. intros r _. cbn [Pipeline.currency_entry Pipeline.zip_entry fst].
    intros Heq. symmetry in Heq. by apply prefix_currency_zipcode in Heq.
  - intros row Hin. destruct (Z1 row Hin) as (row' & Hin' & Hk & Hl).
    exists row'. split; [done|]. split; [|done].
    cbn [Pipeline.zip_entry fst] in Hk. by apply (inj (String.app _)) in Hk.
Qed.

(** X27: when the connection is accepted, [initialize_lookup_cache] leaves,
    for every row of the three reference tables, an entry under the key of
    that row (["product:<id>"], ["currency:<code>"], ["zipcode:<zip>"]) that
    is the serialization of a row of that table with the same identifier;
    entries of one table are not overwritten by another table.  When the
    connection is refused it raises and writes nothing. *)
Theorem initialize_lookup_cache_fills self (env : Postgres.behaviour) tables s :
  let '(r, s') := Pipeline.initialize_lookup_cache str_rate self env tables s in
  let cached := (RedisCache.get_all (Pipeline.lookup_cache self) s').1 in
  if Postgres.connect_ok env then
    r = Ok tt ∧
    (∀ row, row ∈ Pipeline.products tables →
       ∃ row', row' ∈ Pipeline.products tables ∧
         Pipeline.p_product_id row' = Pipeline.p_product_id row ∧
         cached !! ("product:" +:+ Pipeline.p_product_id row)
           = Some (Pipeline.product_entry row').2) ∧
    (∀ row, row ∈ Pipeline.currency_rates tables →
       ∃ row', row' ∈ Pipeline.currency_rates tables ∧
         Pipeline.c_currency_code row' = Pipeline.c_currency_code row ∧
         cached !! ("currency:" +:+ Pipeline.c_currency_code row)
           = Some (str_rate (Pipeline.c_rate_to_usd row'))) ∧
    (∀ row, row ∈ Pipeline.zip_codes tables →
       ∃ row', row' ∈ Pipeline.zip_codes tables ∧
         Pipeline.z_zip_code row' = Pipeline.z_zip_code row ∧
         cached !! ("zipcode:" +:+ Pipeline.z_zip_code row)
           = Some (Pipeline.zip_entry row').2)
  else r = Raise "OperationalError" ∧ s' = s.
Proof.
  destruct (Postgres.connect_ok env) eqn:Hok.
  - pose proof (lookup_cache_filled self env tables s Hok) as Hf.
    destruct (Pipeline.initialize_lookup_cache str_rate self env tables s) as [r s'].
    exact Hf.
  - unfold Pipeline.initialize_lookup_cache. by rewrite Hok.
Qed.

Lemma enrich_row_found self (row : Order) s (product rate zip : string)
    (product_data zip_data : json) (currency_rate : float) :
  let cached := Redis.hgetall (RedisCache.cache_name (Pipeline.lookup_cache self)) s in
  cached !! ("product:" +:+ product_id row) = Some product → product ≠ EmptyString →
  loads product = Some product_data → json_truthy product_data = true →
  cached !! ("currency:" +:+ currency row) = Some rate → rate ≠ EmptyString →
  float_of_string rate = Some currency_rate → float_truthy currency_rate = true →
  cached !! ("zipcode:" +:+ zip_code row) = Some zip → zip ≠ EmptyString →
  loads zip = Some zip_data → json_truthy zip_data = true →
  (Pipeline.enrich_row self row s).1
  = Ok (Some {| e_order_id := order_id row; e_customer_id := customer_id row;
                e_product_id := product_id row; e_quantity := quantity row;
                e_unit_price := unit_price row; e_currency := currency row;
                e_zip_code := zip_code row; e_order_timestamp := order_timestamp row;
                e_raw_data := dumps (raw_data row) |}).
Proof.
  intros cached Hp Hpn Hpl Hpt Hc Hcn Hcl Hct Hz Hzn Hzl Hzt. subst cached.
  unfold Pipeline.enrich_row, RedisCache.get_json, RedisCache.get, Redis.hget.
  unfold mbind, state_bind, mret, state_ret, gets. cbn.
  repeat (first [rewrite Hp | rewrite Hc | rewrite Hz | rewrite Hpl | rewrite Hcl
                | rewrite Hzl | rewrite bool_decide_eq_false_2 by done]; cbn).
  by rewrite Hpt, Hct, Hzt.
Qed.

(** X28: after a successful [initialize_lookup_cache], an order whose
    product, currency and zip code are in the reference tables is enriched
    by [enrich_row], provided the stored values read back as truthy values
    (the serialized dictionaries decode to non-empty documents, the rates
    print as non-zero numbers). *)
Theorem warm_cache_enriches self (env : Postgres.behaviour) tables s (order : Order) :
  Postgres.connect_ok env = true →
  (∀ info : Pipeline.ProductInfo,
     dumps info ≠ EmptyString ∧
     ∃ document : json, loads (dumps info) = Some document ∧ json_truthy document = true) →
  (∀ info : Pipeline.ZipInfo,
     dumps info ≠ EmptyString ∧
     ∃ document : json, loads (dumps info) = Some document ∧ json_truthy document = true) →
  (∀ row, row ∈ Pipeline.currency_rates tables →
     str_rate (Pipeline.c_rate_to_usd row) ≠ EmptyString ∧
     ∃ x, float_of_string (str_rate (Pipeline.c_rate_to_usd row)) = Some x ∧
          float_truthy x = true) →
  (∃ row, row ∈ Pipeline.products tables ∧ Pipeline.p_product_id row = product_id order) →
  (∃ row, row ∈ Pipeline.currency_rates tables ∧
          Pipeline.c_currency_code row = currency order) →
  (∃ row, row ∈ Pipeline.zip_codes tables ∧ Pipeline.z_zip_code row = zip_code order) →
  (Pipeline.enrich_row self order
     (Pipeline.initialize_lookup_cache str_rate self env tables s).2).1
  = Ok (Some {| e_order_id := order_id order; e_customer_id := customer_id order;
                e_product_id := product_id order; e_quantity := quantity order;
                e_unit_price := unit_price order; e_currency := currency order;
                e_zip_code := zip_code order;
                e_order_timestamp := order_timestamp order;
                e_raw_data := dumps (raw_data order) |}).
Proof.
  intros Hok Hprod Hzip Hrate (prow & Hpin & Hpid) (crow & Hcin & Hcid) (zrow & Hzin & Hzid).
  pose proof (lookup_cache_filled self env tables s Hok) as Hf.
  destruct (Pipeline.initialize_lookup_cache str_rate self env tables s) as [r s'].
  cbv zeta in Hf. destruct Hf as (_ & HP & HC & HZ). cbn [snd].
  destruct (HP prow Hpin) as (prow' & _ & _ & Hpl).
  destruct (HC crow Hcin) as (crow' & Hcin' & _ & Hcl).
  destruct (HZ zrow Hzin) as (zrow' & _ & _ & Hzl).
  rewrite Hpid in Hpl. rewrite Hcid in Hcl. rewrite Hzid in Hzl.
  cbn [Pipeline.product_entry Pipeline.zip_entry snd] in Hpl, Hzl.
  match type of Hpl with _ = Some (dumps ?i) =>
    destruct (Hprod i) as (Hpn & pj & Hpj & Hpt) end.
  match type of Hzl with _ = Some (dumps ?i) =>
    destruct (Hzip i) as (Hzn & zj & Hzj & Hzt) end.
  destruct (Hrate crow' Hcin') as (Hcn & x & Hx & Hxt).
  by eapply enrich_row_found.
Qed.
End warm_cache.

(** ** The worker loop *)

Section worker_loop.
Context `{PyValues} `{!Json Order} `{!Json Event} `{!Polars}.
Context (pipeline_config : PipelineConfig).
Implicit Types (self : Pipeline.Worker) (w : Pipeline.World) (env : Pipeline.environment).

Lemma run_loop_unbounded self (max_iterations : option Z) env (fuel : nat) :
  (∀ iterations, Pipeline.reached max_iterations iterations = false) →
  ∀ iterations w,
    (Pipeline.run_loop pipeline_config self max_iterations env fuel iterations w).1
    ≠ Some (Ok tt).
Proof.
  intros Hnever. induction fuel as [|fuel IH]; intros iterations w; [done|].
  cbn [Pipeline.run_loop]. rewrite Hnever. unfold mbind, state_bind.
  destruct (Pipeline.process_batch _ _ env w) as [[stats|e] w1]; [|done].
  match goal with
  | |- context [(if bool_decide (Pipeline.processed stats = 0%Z) then ?a else ?b) w1] =>
      destruct ((if bool_decide (Pipeline.processed stats = 0%Z) then a else b) w1)
        as [[] w2]
  end.
  apply IH.
Qed.

(** X29: the bound of [run] is only looked at when it is not zero: without
    [max_iterations], and also with [max_iterations = 0], the loop never ends
    on its own (it can only end by an exception), while with a negative bound
    it ends at once, before any batch. *)
Theorem worker_bound_edge_cases self env (fuel : nat) w :
  (Pipeline.run pipeline_config self None env fuel w).1 ≠ Some (Ok tt) ∧
  (Pipeline.run pipeline_config self (Some 0%Z) env fuel w).1 ≠ Some (Ok tt) ∧
  ∀ m : Z, (m < 0)%Z →
    Pipeline.run pipeline_config self (Some m) env (S fuel) w = (Some (Ok tt), w).
Proof.
  split; [by apply run_loop_unbounded|]. split; [by apply run_loop_unbounded|].
  intros m Hm. unfold Pipeline.run. cbn [Pipeline.run_loop].
  unfold Pipeline.reached.
  rewrite bool_decide_eq_false_2, bool_decide_eq_true_2 by lia. done.
Qed.


End worker_loop.

(** ** Concrete runs of the further properties *)

Section more_runs.
Import Demo.
#[local] Existing Instance json_string.
#[local] Existing Instance values.
#[local] Existing Instance json_order.
#[local] Existing Instance json_event.
#[local] Existing Instance json_product_info.
#[local] Existing Instance json_zip_info.
#[local] Existing Instance polars.

(** [mark_batch_grows_count] for a batch with one identifier of the window
    and a new one given twice. *)
Lemma mark_batch_grows_count_witness :
  (0 < RedisDeduplicator.ttl_seconds dedup)%Z ∧
  let '(n, s') := RedisDeduplicator.mark_batch dedup ["ORD-1"; "ORD-2"; "ORD-2"] marked in
  (RedisDeduplicator.count_seen dedup s').1
  = ((RedisDeduplicator.count_seen dedup marked).1 + n)%Z.
Proof.
  split; [reflexivity|].
  exact (mark_batch_grows_count dedup ["ORD-1"; "ORD-2"; "ORD-2"] marked eq_refl).
Defined.

(** [window_expires_at_horizon] for the window marked at time 0, an hour
    on. *)
Lemma window_expires_at_horizon_witness :
  horizon dedup marked = Some 3600%Z ∧
  (RedisDeduplicator.count_seen dedup (Redis.tick 3600 marked)).1 = 0%Z.
Proof.
  assert (H1 : horizon dedup marked = Some 3600%Z) by (vm_compute; reflexivity).
  split; [exact H1|].
  refine (proj1 (proj2 (window_expires_at_horizon dedup marked 3600 3600 H1) _)).
  vm_compute. discriminate.
Defined.

(** [mark_seen_again_single] for the identifier marked at time 0, ten
    seconds on. *)
Lemma mark_seen_again_single_witness :
  seen dedup later = {["ORD-1" := "0"]} ∧
  (0 < RedisDeduplicator.ttl_seconds dedup)%Z ∧
  let '(b, s') := RedisDeduplicator.mark_seen dedup "ORD-1" later in
  b = false ∧ seen dedup s' = seen dedup later ∧
  horizon dedup s' = Some (Redis.clock later + RedisDeduplicator.ttl_seconds dedup)%Z.
Proof.
  assert (H1 : seen dedup later = {["ORD-1" := "0"]}) by (vm_compute; reflexivity).
  split; [exact H1|]. split; [reflexivity|].
  exact (mark_seen_again_single dedup "ORD-1" "0" later H1 eq_refl).
Defined.

(** [mark_batch_as_mark_seen] for a batch with one identifier of the window
    and a new one given twice. *)
Lemma mark_batch_as_mark_seen_witness :
  (0 < RedisDeduplicator.ttl_seconds dedup)%Z ∧
  (RedisDeduplicator.mark_batch dedup ["ORD-1"; "ORD-2"; "ORD-2"] marked).1
  = (mark_each dedup ["ORD-1"; "ORD-2"; "ORD-2"] marked).1.
Proof.
  split; [reflexivity|].
  exact (proj1 (mark_batch_as_mark_seen dedup ["ORD-1"; "ORD-2"; "ORD-2"] marked eq_refl)).
Defined.

(** [backpressure_independent]: an increment of the ingestion counter on
    the full server does not throttle the processing queue. *)
Lemma backpressure_independent_witness :
  "ingestion" ≠ "processing" ∧
  (RedisBackpressure.should_throttle RedisBackpressure.init "processing" 100000
     (RedisBackpressure.increment RedisBackpressure.init "ingestion" 5 full).2).1
  = (RedisBackpressure.should_throttle RedisBackpressure.init "processing" 100000 full).1.
Proof.
  assert (H1 : "ingestion" ≠ "processing") by discriminate.
  split; [exact H1|].
  exact (proj2 (backpressure_independent RedisBackpressure.init "ingestion" "processing"
                  5 100000 full H1 _ (or_introl eq_refl))).
Defined.

(** [backpressure_arithmetic] for an amount of five on the full server. *)
Lemma backpressure_arithmetic_witness :
  int64 (RedisBackpressure.get_depth RedisBackpressure.init "ingestion" full).1 ∧
  int64 5 ∧ int64 (- 5) ∧
  int64 ((RedisBackpressure.get_depth RedisBackpressure.init "ingestion" full).1 + 5) ∧
  let '(up, s1) := RedisBackpressure.increment RedisBackpressure.init "ingestion" 5 full in
  let '(down, s2) := RedisBackpressure.decrement RedisBackpressure.init "ingestion" 5 s1 in
  up = ((RedisBackpressure.get_depth RedisBackpressure.init "ingestion" full).1 + 5)%Z ∧
  (RedisBackpressure.get_depth RedisBackpressure.init "ingestion" s1).1 = up ∧
  down = (RedisBackpressure.get_depth RedisBackpressure.init "ingestion" full).1 ∧
  (RedisBackpressure.get_depth RedisBackpressure.init "ingestion" s2).1 = down.
Proof.
  assert (H1 : int64 (RedisBackpressure.get_depth RedisBackpressure.init "ingestion" full).1)
    by (vm_compute; split; [discriminate|reflexivity]).
  assert (H2 : int64 5) by (vm_compute; split; [discriminate|reflexivity]).
  assert (H3 : int64 (- 5)) by (vm_compute; split; [discriminate|reflexivity]).
  assert (H4 : int64 ((RedisBackpressure.get_depth RedisBackpressure.init "ingestion"
                         full).1 + 5))
    by (vm_compute; split; [discriminate|reflexivity]).
  split; [exact H1|]. split; [exact H2|]. split; [exact H3|]. split; [exact H4|].
  pose proof (backpressure_arithmetic RedisBackpressure.init "ingestion" 5 full
                H1 H2 H3 H4) as Hw.
  destruct (RedisBackpressure.increment RedisBackpressure.init "ingestion" 5 full)
    as [up s1].
  destruct (RedisBackpressure.decrement RedisBackpressure.init "ingestion" 5 s1)
    as [down s2].
  destruct Hw as (Ha & Hb & Hc & Hd & _). exact (conj Ha (conj Hb (conj Hc Hd))).
Defined.

(** [cache_json_round_trip] for a product name in the lookup cache. *)
Lemma cache_json_round_trip_witness :
  loads (dumps "Laptop") = Some "Laptop" ∧
  dumps "Laptop" ≠ EmptyString ∧
  (RedisCache.get_json (Pipeline.lookup_cache orchestrator) "product:PROD-001"
     (RedisCache.set_json (Pipeline.lookup_cache orchestrator) "product:PROD-001"
        "Laptop" None Redis.empty).2).1
  = Ok (Some "Laptop").
Proof.
  assert (H2 : dumps "Laptop" ≠ EmptyString) by discriminate.
  split; [reflexivity|]. split; [exact H2|].
  exact (cache_json_round_trip (Pipeline.lookup_cache orchestrator) "product:PROD-001"
           "Laptop" Redis.empty eq_refl H2).
Defined.

(** [cache_ttl_expires_whole_cache] for a rate cached for a minute. *)
Lemma cache_ttl_expires_whole_cache_witness :
  (0 < 60)%Z ∧
  (RedisCache.get_all (Pipeline.lookup_cache orchestrator)
     (Redis.tick 60
        (RedisCache.set (Pipeline.lookup_cache orchestrator) "currency:USD" "1"
           (Some 60%Z) Redis.empty).2)).1 = ∅.
Proof.
  split; [reflexivity|].
  refine (proj1 (proj2 (proj2 (cache_ttl_expires_whole_cache
            (Pipeline.lookup_cache orchestrator) "currency:USD" "1" 60 60 Redis.empty
            eq_refl)) _)).
  discriminate.
Defined.

(** The default configuration does not throttle the empty server. *)
Lemma empty_not_throttled :
  (RedisBackpressure.should_throttle (Pipeline.backpressure orchestrator) "ingestion"
     (max_queue_depth default_config) Redis.empty).1 = false.
Proof. vm_compute. reflexivity. Qed.

(** Every entry decodes with the codec of the demo. *)
Lemma demo_entries_decode (entries : list string) :
  ∀ v, v ∈ entries → is_Some (loads (A:=Order) v).
Proof. intros v _. by eexists. Qed.

(** [ingest_accounting] for the wave given twice to the empty server. *)
Lemma ingest_accounting_witness :
  (0 < dedup_window_seconds default_config)%Z ∧
  (RedisBackpressure.should_throttle (Pipeline.backpressure orchestrator) "ingestion"
     (max_queue_depth default_config) Redis.empty).1 = false ∧
  let '(stats, s') :=
    Pipeline.ingest_orders default_config orchestrator (wave ++ wave) Redis.empty in
  Pipeline.total stats = Z.of_nat (length (wave ++ wave)) ∧
  (Pipeline.new stats + Pipeline.duplicates stats)%Z = Pipeline.total stats ∧
  Pipeline.queued stats = Pipeline.new stats.
Proof.
  split; [reflexivity|]. split; [exact empty_not_throttled|].
  pose proof (ingest_accounting default_config (wave ++ wave) Redis.empty eq_refl
                empty_not_throttled) as Hw.
  change (Pipeline.init default_config) with orchestrator in Hw.
  destruct (Pipeline.ingest_orders default_config orchestrator (wave ++ wave) Redis.empty)
    as [stats s'].
  exact (conj (proj1 Hw) (conj (proj1 (proj2 Hw)) (proj1 (proj2 (proj2 Hw))))).
Defined.

(** [ingest_queues_first_occurrences] for the wave, on the server that has
    seen its first order. *)
Lemma ingest_queues_first_occurrences_witness :
  (0 < RedisDeduplicator.ttl_seconds (Pipeline.deduplicator orchestrator))%Z ∧
  (RedisBackpressure.should_throttle (Pipeline.backpressure orchestrator) "ingestion"
     (max_queue_depth default_config) marked).1 = false ∧
  ∃ new_orders : list Order,
    Redis.lrange (RedisQueue.queue_name (Pipeline.ingestion_queue orchestrator))
      (Pipeline.ingest_orders default_config orchestrator wave marked).2
      = rev (dumps <$> new_orders)
        ++ Redis.lrange (RedisQueue.queue_name (Pipeline.ingestion_queue orchestrator)) marked ∧
    NoDup (order_id <$> new_orders) ∧
    new_orders `sublist_of` wave.
Proof.
  assert (H2 : (RedisBackpressure.should_throttle (Pipeline.backpressure orchestrator)
                  "ingestion" (max_queue_depth default_config) marked).1 = false)
    by (vm_compute; reflexivity).
  split; [reflexivity|]. split; [exact H2|].
  destruct (ingest_queues_first_occurrences default_config orchestrator wave marked
              eq_refl H2) as (new_orders & Hq & Hn & Hs & _).
  exists new_orders. exact (conj Hq (conj Hn Hs)).
Defined.

(** [ingest_twice_queues_once] for the wave on the empty server. *)
Lemma ingest_twice_queues_once_witness :
  (0 < dedup_window_seconds default_config)%Z ∧
  (RedisBackpressure.should_throttle (Pipeline.backpressure orchestrator) "ingestion"
     (max_queue_depth default_config) Redis.empty).1 = false ∧
  let '(stats, s2) := Pipeline.ingest_orders default_config orchestrator wave queued in
  Pipeline.new stats = 0%Z ∧ Pipeline.queued stats = 0%Z.
Proof.
  split; [reflexivity|]. split; [exact empty_not_throttled|].
  pose proof (ingest_twice_queues_once default_config wave Redis.empty eq_refl
                empty_not_throttled) as Hw.
  change (Pipeline.init default_config) with orchestrator in Hw.
  change (Pipeline.ingest_orders default_config orchestrator wave Redis.empty).2
    with queued in Hw.
  cbv zeta in Hw.
  destruct (Pipeline.ingest_orders default_config orchestrator wave queued) as [stats s2].
  exact (conj (proj1 Hw) (proj1 (proj2 Hw))).
Defined.


(** [process_batch_stages] for the queue of the wave, with the lookups
    cached and everything up: both orders are staged and the event is
    published. *)
Lemma process_batch_stages_witness :
  (∀ v, v ∈ Redis.lrange (RedisQueue.queue_name (Pipeline.ingestion_queue orchestrator))
              (Pipeline.redis warm_world) → is_Some (loads (A:=Order) v)) ∧
  (Pipeline.process_batch orchestrator 5000 all_up warm_world).1
    = Ok {| Pipeline.processed := 2; Pipeline.enriched := 2;
            Pipeline.staged := 2; Pipeline.errors := 0 |} ∧
  let '(r, w') := Pipeline.process_batch orchestrator 5000 all_up warm_world in
  match r with
  | Ok stats =>
      ∃ rows : list EnrichedRow,
        Pipeline.staged stats = Z.of_nat (length rows) ∧
        Postgres.orders_staging (Pipeline.postgres w')
          = Postgres.orders_staging (Pipeline.postgres warm_world) ++ rows ∧
        Redis.channel_log (Pipeline.redis w')
          = (if bool_decide (Pipeline.staged stats = 0%Z)
                || negb (Pipeline.publish_ok all_up)
             then []
             else [("pipeline:events",
                    dumps {| event := "batch_staged"; count := Pipeline.staged stats;
                             timestamp := isoformat (Redis.clock (Pipeline.redis w')) |})])
            ++ Redis.channel_log (Pipeline.redis warm_world)
  | Raise _ => Pipeline.postgres w' = Pipeline.postgres warm_world
  end.
Proof.
  split; [apply demo_entries_decode|].
  split; [vm_compute; reflexivity|].
  pose proof (process_batch_stages default_config 5000 all_up warm_world
                (demo_entries_decode _)) as Hw.
  change (Pipeline.init default_config) with orchestrator in Hw.
  destruct (Pipeline.process_batch orchestrator 5000 all_up warm_world) as [[stats|e] w'].
  - destruct Hw as (rows & H1 & H2 & _ & _ & H5 & _). exists rows.
    exact (conj H1 (conj H2 H5)).
  - exact (proj1 Hw).
Defined.

(** [promote_failure_rolls_back] when the PUBLISH is refused after the
    staged row was promoted and the views refreshed. *)
Lemma promote_failure_rolls_back_witness :
  (Pipeline.promote_to_production (λ _, true) orchestrator publish_refused
     staged_world).1 = Raise "ConnectionError" ∧
  Pipeline.redis (Pipeline.promote_to_production (λ _, true) orchestrator publish_refused
                    staged_world).2 = Pipeline.redis staged_world ∧
  Pipeline.postgres (Pipeline.promote_to_production (λ _, true) orchestrator
                       publish_refused staged_world).2 ≠ Pipeline.postgres staged_world.
Proof.
  assert (H1 : (Pipeline.promote_to_production (λ _, true) orchestrator publish_refused
                  staged_world).1 = Raise "ConnectionError") by (vm_compute; reflexivity).
  split; [exact H1|].
  pose proof (promote_failure_rolls_back (λ _, true) orchestrator publish_refused
                staged_world "ConnectionError" H1) as Hw.
  cbv zeta in Hw. destruct Hw as (Hr & _ & Hc).
  split; [exact Hr|].
  exact (proj2 (proj2 (Hc eq_refl eq_refl eq_refl))).
Defined.

(** The dictionaries of the demo are stored as non-empty documents. *)
Lemma demo_product_documents (info : Pipeline.ProductInfo) :
  dumps info ≠ EmptyString ∧
  ∃ document : json, loads (dumps info) = Some document ∧ json_truthy document = true.
Proof. split; [discriminate|]. eexists. split; reflexivity. Qed.

Lemma demo_zip_documents (info : Pipeline.ZipInfo) :
  dumps info ≠ EmptyString ∧
  ∃ document : json, loads (dumps info) = Some document ∧ json_truthy document = true.
Proof. split; [discriminate|]. eexists. split; reflexivity. Qed.

(** The rates of the demo print as non-zero numbers. *)
Lemma demo_rates row :
  row ∈ Pipeline.currency_rates tables →
  pretty (Pipeline.c_rate_to_usd row) ≠ EmptyString ∧
  ∃ x, float_of_string (pretty (Pipeline.c_rate_to_usd row)) = Some x ∧
       float_truthy x = true.
Proof.
  intros Hrow. apply list_elem_of_singleton in Hrow. rewrite Hrow.
  split; [vm_compute; discriminate|]. eexists. split; reflexivity.
Qed.

(** [warm_cache_enriches] for the first order of the wave and the tables of
    the demo. *)
Lemma warm_cache_enriches_witness :
  Postgres.connect_ok healthy = true ∧
  (∃ row, row ∈ Pipeline.products tables ∧
          Pipeline.p_product_id row = product_id (order "ORD-1")) ∧
  (∃ row, row ∈ Pipeline.currency_rates tables ∧
          Pipeline.c_currency_code row = currency (order "ORD-1")) ∧
  (∃ row, row ∈ Pipeline.zip_codes tables ∧
          Pipeline.z_zip_code row = zip_code (order "ORD-1")) ∧
  (Pipeline.enrich_row orchestrator (order "ORD-1")
     (Pipeline.initialize_lookup_cache pretty orchestrator healthy tables Redis.empty).2).1
  = Ok (Some staged_row).
Proof.
  assert (H1 : ∃ row, row ∈ Pipeline.products tables ∧
                 Pipeline.p_product_id row = product_id (order "ORD-1"))
    by (eexists; split; [apply list_elem_of_here|reflexivity]).
  assert (H2 : ∃ row, row ∈ Pipeline.currency_rates tables ∧
                 Pipeline.c_currency_code row = currency (order "ORD-1"))
    by (eexists; split; [apply list_elem_of_here|reflexivity]).
  assert (H3 : ∃ row, row ∈ Pipeline.zip_codes tables ∧
                 Pipeline.z_zip_code row = zip_code (order "ORD-1"))
    by (eexists; split; [apply list_elem_of_here|reflexivity]).
  split; [reflexivity|]. split; [exact H1|]. split; [exact H2|]. split; [exact H3|].
  exact (warm_cache_enriches pretty orchestrator healthy tables Redis.empty (order "ORD-1")
           eq_refl demo_product_documents demo_zip_documents demo_rates H1 H2 H3).
Defined.

End more_runs.
